(** * Dependency analysis service: a shallow embedding of [service.ts]

    The development follows the class [DependencyAnalysisService]:
    the module resolver ([resolveFilePath], [resolveImportPath], ...), the
    declaration extractor ([visitNode] and its handlers), the graph builder
    ([analyzeFile], [analyzeFileRecursive]), the provenance tracer
    ([traceSymbolSource]) and the query engine ([findAllFinalDependencies],
    [query]).

    JavaScript [Set<string>] and [Map<string, V>] iterate in insertion order;
    they are modelled as duplicate-free lists and association lists that keep
    that order.  Recursion whose depth the source does not bound structurally
    carries a [fuel] argument that bounds the depth of the call stack; running
    out of fuel is the result [None]. *)

From Stdlib Require Import String List Bool Arith Lia Ascii.
Import ListNotations.
Local Open Scope string_scope.
Local Open Scope list_scope.

Set Warnings "-register-all".

(* ================================================================== *)
(** * Containers *)

Module JS.

(** [Set<string>]: insertion ordered, without duplicates. *)
Definition StrSet := list string.

Definition has (s : StrSet) (x : string) : bool := existsb (String.eqb x) s.

Definition add (s : StrSet) (x : string) : StrSet :=
  if has s x then s else s ++ [x].

(** [src.forEach(x => dst.add(x))] *)
Definition addAll (dst src : StrSet) : StrSet := fold_left add src dst.

(** [Map<string, V>]: insertion ordered association list; [set] on an
    existing key keeps the key's position. *)
Definition StrMap (V : Type) := list (string * V).

Fixpoint get {V} (m : StrMap V) (k : string) : option V :=
  match m with
  | [] => None
  | (k', v) :: m' => if String.eqb k k' then Some v else get m' k
  end.

Definition mhas {V} (m : StrMap V) (k : string) : bool :=
  match get m k with Some _ => true | None => false end.

Fixpoint set {V} (m : StrMap V) (k : string) (v : V) : StrMap V :=
  match m with
  | [] => [(k, v)]
  | (k', v') :: m' =>
      if String.eqb k k' then (k', v) :: m' else (k', v') :: set m' k v
  end.

Definition keys {V} (m : StrMap V) : list string := map fst m.

(** [s.startsWith(p)] *)
Definition startsWith (s p : string) : bool := String.prefix p s.

End JS.

(* ================================================================== *)
(** * Data model *)

Definition SymbolName := string.
Definition FileName := string.

Record Result := mkResult {
  import : JS.StrMap JS.StrSet;
  defaultExport : option string;
  commonExport : JS.StrSet;
  styleImports : JS.StrSet
}.

Definition FileAnalysisResult := JS.StrMap Result.

Definition with_import (r : Result) (i : JS.StrMap JS.StrSet) : Result :=
  mkResult i (defaultExport r) (commonExport r) (styleImports r).
Definition with_defaultExport (r : Result) (d : option string) : Result :=
  mkResult (import r) d (commonExport r) (styleImports r).
Definition with_commonExport (r : Result) (c : JS.StrSet) : Result :=
  mkResult (import r) (defaultExport r) c (styleImports r).
Definition with_styleImports (r : Result) (s : JS.StrSet) : Result :=
  mkResult (import r) (defaultExport r) (commonExport r) s.

(** The mutable state of one [DependencyAnalysisService] instance.
    [extractionLog] is a ghost field, absent from the source: [analyzeFile]
    appends the path to it each time it runs [visitNode] over a source file,
    so that the number of extraction passes per file can be stated. *)
Record Service := mkService {
  depsGraph : FileAnalysisResult;
  analyzedFiles : JS.StrSet;
  exportCache : JS.StrMap Result;
  extractionLog : list FileName
}.

(** The fields the constructor assigns and nothing else writes:
    [PathsMapping] (as computed by [initPathsMapping]) and [indexDirs]. *)
Record Config := mkConfig {
  PathsMapping : JS.StrMap string;
  indexDirs : list string
}.

(** The state right after [new DependencyAnalysisService(options)]. *)
Definition newService : Service := mkService [] [] [] [].

(* ================================================================== *)
(** * The syntax tree, as far as the extractor inspects it

    The tree is produced by the TypeScript parser.  A node carries the
    fields the handlers read ([Syntax]) and the children that
    [ts.forEachChild] enumerates. *)

Inductive Expression :=
| StringLiteral (text : string)
| Identifier (text : string)
| FunctionExpression (name : option string)
| ClassExpression (name : option string)
| ImportKeyword
| OtherExpression.

(** [ImportSpecifier] and [ExportSpecifier]: [propertyName as name]. *)
Record Specifier := mkSpecifier {
  propertyName : option string;
  name : string
}.

Inductive NamedImportBindings :=
| NamedImports (elements : list Specifier)
| NamespaceImport (nsName : string).

Record ImportClause := mkImportClause {
  clauseName : option string;
  namedBindings : option NamedImportBindings
}.

Inductive NamedExportBindings :=
| NamedExports (elements : list Specifier)
| NamespaceExport (nsName : string).

Inductive ModuleReference :=
| ExternalModuleReference (expression : option Expression)
| EntityNameReference.

Inductive Modifier := ExportKeyword | DefaultKeyword | OtherModifier.

(** A binding name: an identifier, or an object or array binding pattern
    whose elements are binding elements ([Some]) or omitted expressions
    ([None]). *)
Inductive BindingName :=
| BindingIdentifier (text : string)
| ObjectBindingPattern (elements : list (option BindingName))
| ArrayBindingPattern (elements : list (option BindingName)).

Inductive Syntax :=
| ImportDeclaration (moduleSpecifier : Expression) (importClause : option ImportClause)
| ImportEqualsDeclaration (moduleReference : option ModuleReference)
| CallExpression (expression : Expression) (arguments : list Expression)
| ExportDeclaration (moduleSpecifier : option Expression)
                    (exportClause : option NamedExportBindings)
| ExportAssignment (isExportEquals : bool) (expression : Expression)
| FunctionDeclaration (modifiers : list Modifier) (declName : option string)
| ClassDeclaration (modifiers : list Modifier) (declName : option string)
| InterfaceDeclaration (modifiers : list Modifier) (declName : string)
| TypeAliasDeclaration (modifiers : list Modifier) (declName : string)
| EnumDeclaration (modifiers : list Modifier) (declName : string)
| ModuleDeclaration (modifiers : list Modifier) (moduleName : Expression)
| VariableStatement (modifiers : list Modifier) (declarations : list BindingName)
| OtherNode.

Inductive Node := mkNode (syntax : Syntax) (children : list Node).

(** Induction over syntax trees, with the hypothesis for every child. *)
Section NodeInduction.
Variable P : Node -> Prop.
Hypothesis step : forall syntax children,
    Forall P children -> P (mkNode syntax children).

Fixpoint Node_induction (node : Node) : P node :=
  match node with
  | mkNode syntax children =>
      step syntax children
           ((fix all (cs : list Node) : Forall P cs :=
               match cs with
               | [] => Forall_nil P
               | c :: cs' => Forall_cons c (Node_induction c) (all cs')
               end) children)
  end.
End NodeInduction.

(* ================================================================== *)
(** * The host: Node's [fs] and [path], the parser, string primitives *)

Class Host := mkHost {
  (** [fs.existsSync(p)] *)
  existsSync : string -> bool;
  (** [fs.statSync(p).isFile()] where [existsSync p] holds; where it does
      not (no such entry, or a dangling link) [fs.statSync(p)] throws *)
  isFile : string -> bool;
  (** [fs.statSync(p).isDirectory()], under the same proviso *)
  isDirectory : string -> bool;
  (** [fs.readdirSync(p)] *)
  readdirSync : string -> list string;
  (** [fs.readFileSync(p, 'utf-8')] followed by [ts.createSourceFile];
      [None] when the read throws *)
  readSourceFile : string -> option Node;
  (** [path.dirname], [path.resolve(a, b)], [path.join(a, b)], [path.extname] *)
  dirname : string -> string;
  resolve : string -> string -> string;
  join : string -> string -> string;
  extname : string -> string;
  (** [String.prototype.toLowerCase] *)
  toLowerCase : string -> string
}.

(** JavaScript truthiness of a [string | null] value. *)
Definition truthy (o : option string) : bool :=
  match o with
  | Some s => negb (String.eqb s "")
  | None => false
  end.

(** [a || b] on strings. *)
Definition orElse (o : option string) (d : string) : string :=
  if truthy o then match o with Some s => s | None => d end else d.

(* ================================================================== *)
(** * A state monad for the engine, with failure for exhausted fuel *)

Definition M (A : Type) : Type := Service -> option (A * Service).

Definition ret {A} (a : A) : M A := fun st => Some (a, st).

Definition bind {A B} (c : M A) (k : A -> M B) : M B :=
  fun st => match c st with
            | Some (a, st') => k a st'
            | None => None
            end.

Definition getState : M Service := fun st => Some (st, st).
Definition outOfFuel {A} : M A := fun _ => None.

Declare Scope engine_scope.
Delimit Scope engine_scope with engine.
Notation "x <- c ;; k" := (bind c (fun x => k))
  (at level 61, c at next level, right associativity) : engine_scope.
Notation "' pat <- c ;; k" := (bind c (fun x => match x with pat => k end))
  (at level 61, pat pattern, c at next level, right associativity) : engine_scope.
Local Open Scope engine_scope.

(** How a call that may throw ends. *)
Inductive Completion (A : Type) : Type :=
| Returned (a : A)
| Threw.
Arguments Returned {A} a.
Arguments Threw {A}.

(** [for (const x of xs) body(x)] where the body may throw: the exception
    leaves the loop. *)
Fixpoint forEachC {A S} (body : A -> S -> M (Completion S)) (xs : list A) (s : S)
  : M (Completion S) :=
  match xs with
  | [] => ret (Returned s)
  | x :: xs' =>
      c <- body x s ;;
      match c with
      | Returned s' => forEachC body xs' s'
      | Threw => ret Threw
      end
  end.

(** [for (const x of xs) body(x)] over a state [S] kept besides the engine. *)
Fixpoint forEachM {A S} (body : A -> S -> M S) (xs : list A) (s : S) : M S :=
  match xs with
  | [] => ret s
  | x :: xs' => s' <- body x s ;; forEachM body xs' s'
  end.

(* ================================================================== *)
(** * Module resolver *)

Section Resolver.
Context {host : Host} (config : Config).

Definition extensions : list string :=
  [".ts"; ".tsx"; ".js"; ".jsx"; ".mjs"; ".cjs"; ".json"].

Definition styleExtensions : list string :=
  [".css"; ".scss"; ".sass"; ".less"; ".styl"; ".stylus"].

(** [for (const ext of exts) { if (fs.existsSync(filePath + ext)) return filePath + ext; }] *)
Fixpoint probeAppended (filePath : string) (exts : list string) : option string :=
  match exts with
  | [] => None
  | ext :: rest =>
      let pathWithExt := (filePath ++ ext)%string in
      if existsSync pathWithExt then Some pathWithExt
      else probeAppended filePath rest
  end.

(** [for (const ext of exts) { const p = path.join(dir, `index${ext}`);
     if (fs.existsSync(p)) return p; }] *)
Fixpoint probeIndex (dirPath : string) (exts : list string) : option string :=
  match exts with
  | [] => None
  | ext :: rest =>
      let indexPath := join dirPath ("index" ++ ext)%string in
      if existsSync indexPath then Some indexPath
      else probeIndex dirPath rest
  end.

Definition resolveFilePath (filePath : string) : option string :=
  if existsSync filePath && isFile filePath then Some filePath
  else match probeAppended filePath extensions with
       | Some p => Some p
       | None => probeIndex filePath extensions
       end.

Definition findEntryFile (dirPath : string) : option string :=
  probeIndex dirPath [".ts"; ".tsx"; ".js"; ".jsx"].

Definition isTypeScriptFile (filePath : string) : bool :=
  JS.has [".ts"; ".tsx"; ".js"; ".jsx"] (extname filePath).

Definition isStyleFile (filePath : string) : bool :=
  JS.has styleExtensions (toLowerCase (extname filePath)).

Definition isRelativeImportPath (importPath : string) : bool :=
  JS.startsWith importPath "./" || JS.startsWith importPath "../".

Definition isLocalImportPath (importPath : string) : bool :=
  if isRelativeImportPath importPath then true
  else if JS.mhas (PathsMapping config) importPath then true
  else false.

Definition resolveImportPath (fromFile importPath : string) : string :=
  if isRelativeImportPath importPath then
    let dir := dirname fromFile in
    let resolved := resolve dir importPath in
    orElse (resolveFilePath resolved) resolved
  else
    let mappedBase := JS.get (PathsMapping config) importPath in
    if truthy mappedBase then
      match mappedBase with
      | Some base => orElse (resolveFilePath base) base
      | None => importPath
      end
    else importPath.

(** The loop over [styleExtensions] in [resolveStylePath]: here the
    candidate must exist and be a regular file. *)
Fixpoint probeStyle (resolved : string) (exts : list string) : option string :=
  match exts with
  | [] => None
  | ext :: rest =>
      let pathWithExt := (resolved ++ ext)%string in
      if existsSync pathWithExt && isFile pathWithExt then Some pathWithExt
      else probeStyle resolved rest
  end.

Definition resolveStylePath (fromFile importPath : string) : option string :=
  if isRelativeImportPath importPath then
    let dir := dirname fromFile in
    let resolved := resolve dir importPath in
    if existsSync resolved && isFile resolved then Some resolved
    else
      match (if String.eqb (extname resolved) ""
             then probeStyle resolved styleExtensions else None) with
      | Some p => Some p
      | None => Some resolved
      end
  else
    let mappedBase := JS.get (PathsMapping config) importPath in
    if truthy mappedBase then
      match mappedBase with
      | Some base =>
          if existsSync base && isFile base then Some base else None
      | None => None
      end
    else None.

End Resolver.

(* ================================================================== *)
(** * Declaration extractor *)

Definition emptyResult : Result := mkResult [] None [] [].

(** [targetExports.commonExport.forEach(s => symbols.add(s));
     if (targetExports.defaultExport) symbols.add('default');] *)
Definition addTargetExports (symbols : JS.StrSet) (targetExports : Result) : JS.StrSet :=
  let symbols := JS.addAll symbols (commonExport targetExports) in
  if truthy (defaultExport targetExports) then JS.add symbols "default" else symbols.

(** [result.import.get(p) || new Set()] *)
Definition importedFrom (result : Result) (p : FileName) : JS.StrSet :=
  match JS.get (import result) p with
  | Some e => e
  | None => []
  end.

(** [const existing = result.import.get(p) || new Set();
     symbols.forEach(s => existing.add(s));
     result.import.set(p, existing);] *)
Definition recordImport (result : Result) (p : FileName) (symbols : JS.StrSet) : Result :=
  let existing := importedFrom result p in
  with_import result (JS.set (import result) p (JS.addAll existing symbols)).

(** [if (absoluteStylePath) result.styleImports.add(absoluteStylePath);] *)
Definition recordStyle (result : Result) (absoluteStylePath : option string) : Result :=
  if truthy absoluteStylePath then
    match absoluteStylePath with
    | Some p => with_styleImports result (JS.add (styleImports result) p)
    | None => result
    end
  else result.

Definition hasModifier (m : Modifier) (modifiers : list Modifier) : bool :=
  existsb (fun x => match x, m with
                    | ExportKeyword, ExportKeyword => true
                    | DefaultKeyword, DefaultKeyword => true
                    | OtherModifier, OtherModifier => true
                    | _, _ => false
                    end) modifiers.

(** [extractBindingNames]: the leaf identifiers of a binding pattern, in
    source order.  [visitBindingElement] is the local closure of the source. *)
Fixpoint visitBindingElement (elementName : BindingName) (names : list string)
  : list string :=
  match elementName with
  | BindingIdentifier text => names ++ [text]
  | ObjectBindingPattern elements | ArrayBindingPattern elements =>
      (fix each (es : list (option BindingName)) (names : list string) :=
         match es with
         | [] => names
         | Some e :: es' => each es' (visitBindingElement e names)
         | None :: es' => each es' names
         end) elements names
  end.

Definition extractBindingNames (patternElements : list (option BindingName))
  : list string :=
  fold_left (fun names element =>
               match element with
               | Some e => visitBindingElement e names
               | None => names
               end) patternElements [].

Definition handleExportAssignment (isExportEquals : bool) (expression : Expression)
    (result : Result) : Result :=
  if isExportEquals then with_defaultExport result (Some "module.exports")
  else
    match expression with
    | Identifier text => with_defaultExport result (Some text)
    | FunctionExpression (Some n) => with_defaultExport result (Some n)
    | ClassExpression (Some n) => with_defaultExport result (Some n)
    | _ => with_defaultExport result (Some "default")
    end.

(** The declaration kinds [handleExportedDeclaration] tells apart. *)
Inductive Declared :=
| FunctionOrClass (declName : option string)
| NamedDeclaration (declName : option string)
| Variables (declarations : list BindingName)
| NotDeclared.

Definition declared (syntax : Syntax) : option (list Modifier * Declared) :=
  match syntax with
  | FunctionDeclaration ms n | ClassDeclaration ms n => Some (ms, FunctionOrClass n)
  | InterfaceDeclaration ms n | TypeAliasDeclaration ms n | EnumDeclaration ms n =>
      Some (ms, NamedDeclaration (Some n))
  | ModuleDeclaration ms (Identifier n) => Some (ms, NamedDeclaration (Some n))
  | ModuleDeclaration ms _ => Some (ms, NamedDeclaration None)
  | VariableStatement ms ds => Some (ms, Variables ds)
  | _ => None
  end.

Definition handleExportedDeclaration (modifiers : list Modifier) (d : Declared)
    (result : Result) : Result :=
  let hasDefault := hasModifier DefaultKeyword modifiers in
  let hasExport := hasModifier ExportKeyword modifiers in
  if negb hasExport then result
  else if hasDefault then
    match d with
    | FunctionOrClass n => with_defaultExport result (Some (orElse n "default"))
    | _ => result
    end
  else
    match d with
    | FunctionOrClass (Some n) | NamedDeclaration (Some n) =>
        with_commonExport result (JS.add (commonExport result) n)
    | FunctionOrClass None | NamedDeclaration None => result
    | Variables declarations =>
        fold_left
          (fun result decl =>
             match decl with
             | BindingIdentifier text =>
                 with_commonExport result (JS.add (commonExport result) text)
             | ObjectBindingPattern elements | ArrayBindingPattern elements =>
                 with_commonExport result
                   (JS.addAll (commonExport result) (extractBindingNames elements))
             end) declarations result
    | NotDeclared => result
    end.

Section Extractor.
Context {host : Host} (config : Config).

(** [this.getFileExports], which re-enters [analyzeFile]; the knot is tied
    in [analyzeFile] below. *)
Variable getFileExports : FileName -> M (option Result).

Definition handleImportDeclaration (moduleSpecifier : Expression)
    (importClause : option ImportClause) (result : Result)
    (currentFilePath : string) : M Result :=
  match moduleSpecifier with
  | StringLiteral importPath =>
      if isStyleFile importPath then
        ret (recordStyle result (resolveStylePath config currentFilePath importPath))
      else if negb (isLocalImportPath config importPath) then ret result
      else
        let absoluteImportPath := resolveImportPath config currentFilePath importPath in
        symbols <-
          match importClause with
          | Some clause =>
              let symbols : JS.StrSet :=
                match clauseName clause with
                | Some _ => JS.add [] "default"
                | None => []
                end in
              match namedBindings clause with
              | Some (NamedImports elements) =>
                  ret (fold_left
                         (fun symbols element =>
                            let symbolName :=
                              match propertyName element with
                              | Some p => p
                              | None => name element
                              end in
                            JS.add symbols symbolName) elements symbols)
              | Some (NamespaceImport _) =>
                  targetExports <- getFileExports absoluteImportPath ;;
                  match targetExports with
                  | Some t => ret (addTargetExports symbols t)
                  | None => ret symbols
                  end
              | None => ret symbols
              end
          | None => ret []
          end ;;
        if (0 <? length symbols)%nat ||
           match importClause with None => true | Some _ => false end
        then ret (recordImport result absoluteImportPath symbols)
        else ret result
  | _ => ret result
  end.

(** The body shared, verbatim, by [handleImportEquals],
    [handleDynamicImport] and [handleRequire] once each has found its
    string literal [importPath]. *)
Definition importTargetSurface (importPath : string) (result : Result)
    (currentFilePath : string) : M Result :=
  if isStyleFile importPath then
    ret (recordStyle result (resolveStylePath config currentFilePath importPath))
  else if isLocalImportPath config importPath then
    let absoluteImportPath := resolveImportPath config currentFilePath importPath in
    targetExports <- getFileExports absoluteImportPath ;;
    let symbols : JS.StrSet :=
      match targetExports with
      | Some t => addTargetExports [] t
      | None => []
      end in
    if (0 <? length symbols)%nat
    then ret (recordImport result absoluteImportPath symbols)
    else ret result
  else ret result.

Definition handleImportEquals (moduleReference : option ModuleReference)
    (result : Result) (currentFilePath : string) : M Result :=
  match moduleReference with
  | Some (ExternalModuleReference (Some (StringLiteral importPath))) =>
      importTargetSurface importPath result currentFilePath
  | _ => ret result
  end.

Definition handleDynamicImport (arguments : list Expression)
    (result : Result) (currentFilePath : string) : M Result :=
  match arguments with
  | StringLiteral importPath :: _ =>
      importTargetSurface importPath result currentFilePath
  | _ => ret result
  end.

Definition handleRequire (arguments : list Expression)
    (result : Result) (currentFilePath : string) : M Result :=
  match arguments with
  | StringLiteral importPath :: _ =>
      importTargetSurface importPath result currentFilePath
  | _ => ret result
  end.

Definition isRequireCall (expression : Expression) (arguments : list Expression)
  : bool :=
  match expression with
  | Identifier text => String.eqb text "require" && (0 <? length arguments)%nat
  | _ => false
  end.

Definition handleExportDeclaration (moduleSpecifier : option Expression)
    (exportClause : option NamedExportBindings) (result : Result)
    (currentFilePath : string) : M Result :=
  match moduleSpecifier with
  | Some (StringLiteral exportPath) =>
      if isLocalImportPath config exportPath then
        let absoluteExportPath := resolveImportPath config currentFilePath exportPath in
        '(importSymbols, exportSymbols) <-
          match exportClause with
          | Some (NamedExports elements) =>
              ret (fold_left
                     (fun '(importSymbols, exportSymbols) element =>
                        let originalName :=
                          match propertyName element with
                          | Some p => p
                          | None => name element
                          end in
                        let exportName := name element in
                        if String.eqb originalName "default"
                        then (JS.add importSymbols "default",
                              JS.add exportSymbols exportName)
                        else (JS.add importSymbols originalName,
                              JS.add exportSymbols exportName))
                     elements (([] : JS.StrSet), ([] : JS.StrSet)))
          | Some (NamespaceExport nsName) =>
              targetExports <- getFileExports absoluteExportPath ;;
              match targetExports with
              | Some t => ret (addTargetExports [] t, JS.add [] nsName)
              | None => ret ([], [])
              end
          | None =>
              targetExports <- getFileExports absoluteExportPath ;;
              match targetExports with
              | Some t =>
                  ret (fold_left
                         (fun '(importSymbols, exportSymbols) s =>
                            (JS.add importSymbols s, JS.add exportSymbols s))
                         (commonExport t) (([] : JS.StrSet), ([] : JS.StrSet)))
              | None => ret ([], [])
              end
          end ;;
        let result :=
          if (0 <? length importSymbols)%nat
          then recordImport result absoluteExportPath importSymbols
          else result in
        ret (with_commonExport result (JS.addAll (commonExport result) exportSymbols))
      else ret result
  | _ =>
      match exportClause with
      | Some (NamedExports elements) =>
          ret (with_commonExport result
                 (fold_left (fun c element => JS.add c (name element))
                            elements (commonExport result)))
      | _ => ret result
      end
  end.

(** The [if / else if] chain of [visitNode], before the recursion. *)
Definition visitSyntax (syntax : Syntax) (result : Result)
    (currentFilePath : string) : M Result :=
  match syntax with
  | ImportDeclaration moduleSpecifier importClause =>
      handleImportDeclaration moduleSpecifier importClause result currentFilePath
  | ImportEqualsDeclaration moduleReference =>
      handleImportEquals moduleReference result currentFilePath
  | CallExpression expression arguments =>
      match expression with
      | ImportKeyword => handleDynamicImport arguments result currentFilePath
      | _ =>
          if isRequireCall expression arguments
          then handleRequire arguments result currentFilePath
          else ret result
      end
  | ExportDeclaration moduleSpecifier exportClause =>
      handleExportDeclaration moduleSpecifier exportClause result currentFilePath
  | ExportAssignment isExportEquals expression =>
      ret (handleExportAssignment isExportEquals expression result)
  | _ =>
      match declared syntax with
      | Some (modifiers, d) =>
          if hasModifier ExportKeyword modifiers
          then ret (handleExportedDeclaration modifiers d result)
          else ret result
      | None => ret result
      end
  end.

Fixpoint visitNode (node : Node) (result : Result) (currentFilePath : string)
  {struct node} : M Result :=
  match node with
  | mkNode syntax children =>
      result <- visitSyntax syntax result currentFilePath ;;
      (fix forEachChild (cs : list Node) (result : Result) : M Result :=
         match cs with
         | [] => ret result
         | child :: cs' =>
             result <- visitNode child result currentFilePath ;;
             forEachChild cs' result
         end) children result
  end.

End Extractor.

(* ================================================================== *)
(** * Dependency graph builder *)

(** A [string | null] value tested with [if (!p) return ...]. *)
Definition whenTruthy (o : option string) : option string :=
  if truthy o then o else None.

Section Builder.
Context {host : Host} (config : Config).

(** [getFileExports], over the [analyzeFile] it falls back to. *)
Definition getFileExportsWith (analyzeFile : FileName -> M (option Result))
    (filePath : string) : M (option Result) :=
  st <- getState ;;
  match JS.get (exportCache st) filePath with
  | Some cached => ret (Some cached)
  | None =>
      match JS.get (depsGraph st) filePath with
      | Some known => ret (Some known)
      | None =>
          match whenTruthy (resolveFilePath filePath) with
          | None => ret None
          | Some actualPath => analyzeFile actualPath
          end
      end
  end.

(** Ghost step: one more extraction pass over [p]. *)
Definition logExtraction (p : FileName) : M unit :=
  fun st => Some (tt, mkService (depsGraph st) (analyzedFiles st)
                                (exportCache st) (extractionLog st ++ [p])).

(** [this.exportCache.set(p, result); this.analyzedFiles.add(p);] *)
Definition updateCache (p : FileName) (result : Result) : M unit :=
  fun st => Some (tt, mkService (depsGraph st) (JS.add (analyzedFiles st) p)
                                (JS.set (exportCache st) p result)
                                (extractionLog st)).

(** [this.depsGraph.set(p, result);] *)
Definition setDepsGraph (p : FileName) (result : Result) : M unit :=
  fun st => Some (tt, mkService (JS.set (depsGraph st) p result) (analyzedFiles st)
                                (exportCache st) (extractionLog st)).

Fixpoint analyzeFile (fuel : nat) (absolutePath : string) : M (option Result) :=
  match fuel with
  | 0 => outOfFuel
  | S fuel' =>
      match readSourceFile absolutePath with
      | None => ret None
      | Some sourceFile =>
          _ <- logExtraction absolutePath ;;
          result <- visitNode config (getFileExportsWith (analyzeFile fuel'))
                              sourceFile emptyResult absolutePath ;;
          _ <- updateCache absolutePath result ;;
          ret (Some result)
      end
  end.

Definition getFileExports (fuel : nat) : string -> M (option Result) :=
  getFileExportsWith (analyzeFile fuel).

(** [visitedFiles] is one mutable set shared by the whole traversal: it is
    threaded through and returned. *)
Fixpoint analyzeFileRecursive (fuel : nat) (absolutePath : string)
    (visitedFiles : JS.StrSet) : M JS.StrSet :=
  match fuel with
  | 0 => outOfFuel
  | S fuel' =>
      if JS.has visitedFiles absolutePath then ret visitedFiles
      else
        let visitedFiles := JS.add visitedFiles absolutePath in
        match whenTruthy (resolveFilePath absolutePath) with
        | None => ret visitedFiles
        | Some actualPath =>
            st <- getState ;;
            match JS.get (depsGraph st) actualPath with
            | Some result =>
                forEachM (analyzeFileRecursive fuel')
                         (JS.keys (import result)) visitedFiles
            | None =>
                analyzed <- analyzeFile fuel' actualPath ;;
                match analyzed with
                | Some result =>
                    _ <- setDepsGraph actualPath result ;;
                    forEachM (analyzeFileRecursive fuel')
                             (JS.keys (import result)) visitedFiles
                | None => ret visitedFiles
                end
            end
        end
  end.

(** [analyzeDirectory] calls [fs.statSync] on every entry without a guard:
    on an entry that does not exist for [stat] (a dangling link) the call
    throws, the loops are left and the promise of [initDepsGraph] rejects. *)
Fixpoint analyzeDirectory (fuel : nat) (dirPath : string)
    (visitedFiles : JS.StrSet) : M (Completion JS.StrSet) :=
  match fuel with
  | 0 => outOfFuel
  | S fuel' =>
      if negb (existsSync dirPath) || negb (isDirectory dirPath)
      then ret (Returned visitedFiles)
      else
        forEachC
          (fun file visitedFiles =>
             let filePath := join dirPath file in
             if negb (existsSync filePath) then ret Threw
             else if isDirectory filePath
             then analyzeDirectory fuel' filePath visitedFiles
             else if isFile filePath && isTypeScriptFile filePath
             then visitedFiles <- analyzeFileRecursive fuel' filePath visitedFiles ;;
                  ret (Returned visitedFiles)
             else ret (Returned visitedFiles))
          (readdirSync dirPath) visitedFiles
  end.

Definition initDepsGraph (fuel : nat) : M (Completion unit) :=
  c <- forEachC
         (fun dir visitedFiles =>
            match whenTruthy (findEntryFile dir) with
            | Some entryFile =>
                visitedFiles <- analyzeFileRecursive fuel entryFile visitedFiles ;;
                ret (Returned visitedFiles)
            | None => analyzeDirectory fuel dir visitedFiles
            end)
         (indexDirs config) [] ;;
  match c with
  | Returned _ => ret (Returned tt)
  | Threw => ret Threw
  end.

End Builder.

(* ================================================================== *)
(** * Symbol provenance tracer *)

Definition isExported (fileInfo : Result) (symbol : string) : bool :=
  if String.eqb symbol "default"
  then match defaultExport fileInfo with Some _ => true | None => false end
  else JS.has (commonExport fileInfo) symbol.

(** The loop over [fileInfo.import.entries()] in [traceSymbolSource], with
    its two mutable locals [foundInImports] and [sources]; [recur] is the
    recursive call, which receives [new Set(visited)]. *)
Fixpoint traceImports (recur : FileName -> option JS.StrSet) (symbol : string)
    (entries : list (FileName * JS.StrSet)) (foundInImports : bool)
    (sources : JS.StrSet) : option (bool * JS.StrSet) :=
  match entries with
  | [] => Some (foundInImports, sources)
  | (importPath, importedSymbols) :: rest =>
      if JS.has importedSymbols symbol then
        match recur importPath with
        | Some subSources =>
            traceImports recur symbol rest true (JS.addAll sources subSources)
        | None => None
        end
      else traceImports recur symbol rest foundInImports sources
  end.

Fixpoint traceSymbolSourceFuel (fuel : nat) (g : FileAnalysisResult)
    (filePath symbol : string) (visited : JS.StrSet) : option JS.StrSet :=
  match fuel with
  | 0 => None
  | S fuel' =>
      let sources : JS.StrSet := [] in
      if JS.has visited filePath then Some sources
      else
        let visited := JS.add visited filePath in
        match JS.get g filePath with
        | None => Some (JS.add sources filePath)
        | Some fileInfo =>
            if negb (isExported fileInfo symbol) then Some sources
            else
              match traceImports
                      (fun importPath =>
                         traceSymbolSourceFuel fuel' g importPath symbol visited)
                      symbol (import fileInfo) false sources with
              | Some (foundInImports, sources) =>
                  if negb foundInImports then Some (JS.add sources filePath)
                  else Some sources
              | None => None
              end
        end
  end.

(** Every recursive call is on a file of the graph that the path has not
    visited yet, so a stack of [length g + 1] frames is enough
    ([traceSymbolSource_total] below). *)
Definition traceSymbolSource (g : FileAnalysisResult) (filePath symbol : string)
    (visited : JS.StrSet) : JS.StrSet :=
  match traceSymbolSourceFuel (S (length g)) g filePath symbol visited with
  | Some sources => sources
  | None => []
  end.

(* ================================================================== *)
(** * Query engine *)

(** [for (const x of xs) body(x)] with possible fuel exhaustion. *)
Fixpoint forEachO {A S} (body : A -> S -> option S) (xs : list A) (s : S) : option S :=
  match xs with
  | [] => Some s
  | x :: xs' =>
      match body x s with
      | Some s' => forEachO body xs' s'
      | None => None
      end
  end.

(** The state of the closure computation: the two sets [finalDeps] and
    [visited] that every recursive call of [findAllFinalDependencies]
    shares and mutates. *)
Definition Closure : Type := (JS.StrSet * JS.StrSet)%type.

(** The three nested loops of [findAllFinalDependencies]: over the entries
    of [fileInfo.import], over the symbols of an entry, over the traced
    sources of a symbol; [recur] is the recursive call. *)
Definition expandEdges (recur : FileName -> Closure -> option Closure)
    (g : FileAnalysisResult) (entries : list (FileName * JS.StrSet))
    : Closure -> option Closure :=
  forEachO
    (fun '(importPath, importedSymbols) =>
       forEachO
         (fun symbol =>
            let symbolSources := traceSymbolSource g importPath symbol [] in
            forEachO
              (fun source '(finalDeps, visited) =>
                 recur source (JS.add finalDeps source, visited))
              symbolSources)
         importedSymbols)
    entries.

Fixpoint findAllFinalDependencies (fuel : nat) (g : FileAnalysisResult)
    (filePath : string) (c : Closure) : option Closure :=
  match fuel with
  | 0 => None
  | S fuel' =>
      let '(finalDeps, visited) := c in
      if JS.has visited filePath then Some (finalDeps, visited)
      else
        let visited := JS.add visited filePath in
        match JS.get g filePath with
        | None => Some (finalDeps, visited)
        | Some fileInfo =>
            expandEdges (findAllFinalDependencies fuel' g) g
                        (import fileInfo) (finalDeps, visited)
        end
  end.

(** The second half of [query]: the styles of the final dependencies. *)
Definition collectStyles (g : FileAnalysisResult) (finalDeps : JS.StrSet) : JS.StrSet :=
  fold_left
    (fun styleDeps depFile =>
       match JS.get g depFile with
       | Some fileInfo => JS.addAll styleDeps (styleImports fileInfo)
       | None => styleDeps
       end) finalDeps [].

Section Query.
Context {host : Host} (config : Config).

Definition query (fuel : nat) (absFilePath : string) : M (list string) :=
  match whenTruthy (resolveFilePath absFilePath) with
  | None => ret []
  | Some actualPath =>
      st <- getState ;;
      _ <- (if negb (JS.mhas (depsGraph st) actualPath)
            then analyzeFileRecursive config fuel actualPath []
            else ret []) ;;
      st <- getState ;;
      match findAllFinalDependencies fuel (depsGraph st) actualPath ([], []) with
      | None => outOfFuel
      | Some (finalDeps, _) =>
          let styleDeps := collectStyles (depsGraph st) finalDeps in
          ret (JS.addAll finalDeps styleDeps)
      end
  end.

End Query.

(* ================================================================== *)
(** * A concrete host for the examples: POSIX paths over a file table *)

Module Posix.

Definition slash : ascii := "/"%char.
Definition dot : ascii := "."%char.

Fixpoint split (s : string) : list string :=
  match s with
  | EmptyString => [EmptyString]
  | String c s' =>
      if Ascii.eqb c slash then EmptyString :: split s'
      else match split s' with
           | h :: t => String c h :: t
           | [] => [String c EmptyString]
           end
  end.

(** Drop empty and [.] segments, let [..] remove the segment before it;
    [acc] holds the kept segments, last first. *)
Fixpoint normalizeSegments (segs acc : list string) : list string :=
  match segs with
  | [] => rev acc
  | seg :: rest =>
      if String.eqb seg "" || String.eqb seg "." then normalizeSegments rest acc
      else if String.eqb seg ".." then normalizeSegments rest (tl acc)
      else normalizeSegments rest (seg :: acc)
  end.

Definition normalizeAbsolute (p : string) : string :=
  ("/" ++ String.concat "/" (normalizeSegments (split p) []))%string.

(** [path.resolve(a, b)] for an absolute [a]. *)
Definition resolve (a b : string) : string :=
  if JS.startsWith b "/" then normalizeAbsolute b
  else normalizeAbsolute (a ++ "/" ++ b)%string.

(** [path.join(a, b)] for an absolute [a]. *)
Definition join (a b : string) : string :=
  normalizeAbsolute (a ++ "/" ++ b)%string.

(** [path.dirname(p)] for an absolute, normalized [p]. *)
Definition dirname (p : string) : string :=
  ("/" ++ String.concat "/" (removelast (normalizeSegments (split p) [])))%string.

(** The last segment of [p], trailing separators aside. *)
Definition basename (p : string) : string :=
  last (filter (fun seg => negb (String.eqb seg "")) (split p)) "".

(** The suffix of [s] that starts at its last dot. *)
Fixpoint fromLastDot (s : string) : option string :=
  match s with
  | EmptyString => None
  | String c s' =>
      match fromLastDot s' with
      | Some r => Some r
      | None => if Ascii.eqb c dot then Some s else None
      end
  end.

(** [path.extname(p)]: a dot that starts the base name does not count, and
    the base name [..] has no extension. *)
Definition extname (p : string) : string :=
  if String.eqb (basename p) ".." then ""
  else
    match basename p with
    | EmptyString => ""
    | String _ rest =>
        match fromLastDot rest with
        | Some r => r
        | None => ""
        end
    end.

Definition lowerAscii (c : ascii) : ascii :=
  let n := nat_of_ascii c in
  if (65 <=? n)%nat && (n <=? 90)%nat then ascii_of_nat (n + 32) else c.

Fixpoint toLowerCase (s : string) : string :=
  match s with
  | EmptyString => EmptyString
  | String c s' => String (lowerAscii c) (toLowerCase s')
  end.

(** A file system given by its regular files (with their parsed source)
    and its directories (with their entries). *)
Definition hostOf (files : JS.StrMap Node) (dirs : JS.StrMap (list string)) : Host :=
  mkHost (fun p => JS.mhas files p || JS.mhas dirs p)
         (fun p => JS.mhas files p)
         (fun p => JS.mhas dirs p)
         (fun p => match JS.get dirs p with Some l => l | None => [] end)
         (fun p => JS.get files p)
         dirname resolve join extname toLowerCase.

End Posix.

(** Builders for the syntax trees of the examples. *)
Module Tree.

Definition leaf : Node := mkNode OtherNode [].

(** A statement whose children (clauses, literals, bodies) trigger no handler. *)
Definition stmt (s : Syntax) : Node := mkNode s [leaf].

Definition sourceFile (statements : list Node) : Node := mkNode OtherNode statements.

(** [import { a, b } from 'spec'] *)
Definition importNamed (names : list string) (spec : string) : Node :=
  stmt (ImportDeclaration (StringLiteral spec)
          (Some (mkImportClause None
                   (Some (NamedImports (map (mkSpecifier None) names)))))).

(** [import * as ns from 'spec'] *)
Definition importNamespace (ns spec : string) : Node :=
  stmt (ImportDeclaration (StringLiteral spec)
          (Some (mkImportClause None (Some (NamespaceImport ns))))).

(** [import 'spec'] *)
Definition importSideEffect (spec : string) : Node :=
  stmt (ImportDeclaration (StringLiteral spec) None).

(** [export { a as b } from 'spec'] *)
Definition reexport (specs : list Specifier) (spec : string) : Node :=
  stmt (ExportDeclaration (Some (StringLiteral spec)) (Some (NamedExports specs))).

(** [export * from 'spec'] *)
Definition exportStar (spec : string) : Node :=
  stmt (ExportDeclaration (Some (StringLiteral spec)) None).

(** [export const x = ...] *)
Definition exportConst (x : string) : Node :=
  stmt (VariableStatement [ExportKeyword] [BindingIdentifier x]).

(** [export function f() {}] *)
Definition exportFunction (f : string) : Node :=
  stmt (FunctionDeclaration [ExportKeyword] (Some f)).

End Tree.

(* ================================================================== *)
(** * Scenarios: small projects under [/p], without path aliases *)

Module Demo.
Import Tree.

Definition noAliases : Config := mkConfig [] [].

(** [index.ts] re-exports [Foo] from [./Foo], which declares it and
    imports [./foo.css] for its side effect. *)
Definition barrel : Host :=
  Posix.hostOf
    [ ("/p/index.ts", sourceFile [reexport [mkSpecifier None "Foo"] "./Foo"]);
      ("/p/Foo.tsx", sourceFile [importSideEffect "./foo.css"; exportFunction "Foo"]);
      ("/p/foo.css", sourceFile []) ]
    [ ("/p", ["index.ts"; "Foo.tsx"; "foo.css"]) ].

(** [A.ts]: [import * as ns from './X'];  [X.ts]: [export const foo = 1]. *)
Definition namespaceImport : Host :=
  Posix.hostOf
    [ ("/p/A.ts", sourceFile [importNamespace "ns" "./X"]);
      ("/p/X.ts", sourceFile [exportConst "foo"]) ]
    [ ("/p", ["A.ts"; "X.ts"]) ].

(** [A.ts]: [import * as ns from './X'], and no [X] on disk. *)
Definition namespaceOfMissing : Host :=
  Posix.hostOf
    [ ("/p/A.ts", sourceFile [importNamespace "ns" "./X"]) ]
    [ ("/p", ["A.ts"]) ].

(** [B.ts]: [export { x as default } from './X'];  [X.ts]: [export const x = 1]. *)
Definition defaultReexport : Host :=
  Posix.hostOf
    [ ("/p/B.ts", sourceFile [reexport [mkSpecifier (Some "x") "default"] "./X"]);
      ("/p/X.ts", sourceFile [exportConst "x"]) ]
    [ ("/p", ["B.ts"; "X.ts"]) ].

(** [A.ts]: [import { x } from './missing'], and nothing else on disk. *)
Definition missingTarget : Host :=
  Posix.hostOf
    [ ("/p/A.ts", sourceFile [importNamed ["x"] "./missing"]) ]
    [ ("/p", ["A.ts"]) ].

(** [f.ts]: [import { T } from './B'; export const S = 1];
    [B.ts]: [import { S } from './f'; export const T = S]. *)
Definition cycle : Host :=
  Posix.hostOf
    [ ("/p/f.ts", sourceFile [importNamed ["T"] "./B"; exportConst "S"]);
      ("/p/B.ts", sourceFile [importNamed ["S"] "./f"; exportConst "T"]) ]
    [ ("/p", ["f.ts"; "B.ts"]) ].

(** [f.ts]: [import './shared.css'; import { D } from './D'];
    [D.ts]: [import './shared.css'; export const D = 1]. *)
Definition sharedStyle : Host :=
  Posix.hostOf
    [ ("/p/f.ts", sourceFile [importSideEffect "./shared.css"; importNamed ["D"] "./D"]);
      ("/p/D.ts", sourceFile [importSideEffect "./shared.css"; exportConst "D"]);
      ("/p/shared.css", sourceFile []) ]
    [ ("/p", ["f.ts"; "D.ts"; "shared.css"]) ].

(** A directory [/d] whose only entry is [index.mjs]. *)
Definition onlyIndexMjs : Host :=
  Posix.hostOf [ ("/d/index.mjs", sourceFile []) ] [ ("/d", ["index.mjs"]) ].

(** [A.ts]: [import * as b from './B'];  [B.ts]: [import * as a from './A']. *)
Definition namespaceCycle : Host :=
  Posix.hostOf
    [ ("/p/A.ts", sourceFile [importNamespace "b" "./B"]);
      ("/p/B.ts", sourceFile [importNamespace "a" "./A"]) ]
    [ ("/p", ["A.ts"; "B.ts"]) ].

Definition fileA : FileName := "/p/A.ts".
Definition fileB : FileName := "/p/B.ts".

(** Neither file of [namespaceCycle] has a Result yet, in the cache or in
    the graph. *)
Definition fresh (st : Service) : Prop :=
  JS.get (exportCache st) fileA = None /\ JS.get (exportCache st) fileB = None /\
  JS.get (depsGraph st) fileA = None /\ JS.get (depsGraph st) fileB = None.

(** [f.ts]: [import './t'];  [t.ts]: [export const x = 1]. *)
Definition sideEffectOnly : Host :=
  Posix.hostOf
    [ ("/p/f.ts", sourceFile [importSideEffect "./t"]);
      ("/p/t.ts", sourceFile [exportConst "x"]) ]
    [ ("/p", ["f.ts"; "t.ts"]) ].

(** The state of a fresh engine after [query] on the given file;
    [newService] stands in when the query does not return. *)
Definition stateAfterQuery (host : Host) (fuel : nat) (file : string) : Service :=
  match @query host noAliases fuel file newService with
  | Some (_, st) => st
  | None => newService
  end.

Definition cycleQueried : Service :=
  Eval vm_compute in stateAfterQuery cycle 3 "/p/f.ts".

Definition sharedStyleQueried : Service :=
  Eval vm_compute in stateAfterQuery sharedStyle 3 "/p/f.ts".

Definition namespaceImportQueried : Service :=
  Eval vm_compute in stateAfterQuery namespaceImport 3 "/p/A.ts".

End Demo.

(* ================================================================== *)
(** * The specification's wording of the resolver and the tracer *)

Section ResolverSpec.
Context {host : Host}.

Definition appended (filePath : string) (exts : list string) : list string :=
  map (fun ext => (filePath ++ ext)%string) exts.

Definition indexFiles (dirPath : string) (exts : list string) : list string :=
  map (fun ext => join dirPath ("index" ++ ext)%string) exts.

(** Written after the specification: the literal path if it is a regular
    file, else the first existing candidate among the path with each
    extension appended, then [index.<ext>] under the path, in the order of
    [extensions]; no match is [None]. *)
Definition resolveFilePath_spec (filePath : string) : option string :=
  if existsSync filePath && isFile filePath then Some filePath
  else find existsSync
            (appended filePath extensions ++ indexFiles filePath extensions).

(** Written after the specification: the entry probe of a root directory
    looks for [index.<ext>] in the resolver's extension order. *)
Definition findEntryFile_spec (dirPath : string) : option string :=
  find existsSync (indexFiles dirPath extensions).

End ResolverSpec.

(** Written after the specification: one step of [traceOrigins], over the
    tracer [trace] used for the recursive calls. *)
Definition traceOrigins_step
    (trace : FileName -> SymbolName -> JS.StrSet -> JS.StrSet)
    (g : FileAnalysisResult) (file : FileName) (symbol : SymbolName)
    (pathVisited : JS.StrSet) : JS.StrSet :=
  if JS.has pathVisited file then []
  else
    match JS.get g file with
    | None => [file]
    | Some r =>
        let onSurface :=
          if String.eqb symbol "default"
          then match defaultExport r with Some _ => true | None => false end
          else JS.has (commonExport r) symbol in
        if negb onSurface then []
        else
          match filter (fun edge => JS.has (snd edge) symbol) (import r) with
          | [] => [file]
          | edges =>
              flat_map (fun edge => trace (fst edge) symbol (JS.add pathVisited file))
                       edges
          end
    end.

(** The files of the graph that a tracing path has not visited yet: the
    measure that bounds the depth of [traceSymbolSource]. *)
Definition unvisited (g : FileAnalysisResult) (visited : JS.StrSet) : nat :=
  length (filter (fun k => negb (JS.has visited k)) (JS.keys g)).

(** Every import key of every Result of the graph; the traced sources all
    lie here. *)
Definition importKeys (g : FileAnalysisResult) : list FileName :=
  flat_map (fun entry => JS.keys (import (snd entry))) g.

(** The import keys that the closure computation has not expanded yet: the
    measure that bounds the depth of [findAllFinalDependencies]. *)
Definition unexpanded (g : FileAnalysisResult) (visited : JS.StrSet) : nat :=
  length (filter (fun k => negb (JS.has visited k)) (importKeys g)).

(* ================================================================== *)
(** * Predicates of the statements *)

(** The import edge binds [symbol]. *)
Definition carries (symbol : SymbolName) (edge : FileName * JS.StrSet) : bool :=
  JS.has (snd edge) symbol.

(** [x] declares [symbol]: it is outside the graph, or it exports [symbol]
    and imports it from nowhere. *)
Definition declares (g : FileAnalysisResult) (symbol : SymbolName) (x : FileName)
  : Prop :=
  JS.get g x = None \/
  exists info, JS.get g x = Some info /\ isExported info symbol = true /\
               forall edge, In edge (import info) -> JS.has (snd edge) symbol = false.

(** [x] is a traced origin: the tracer returns it for a symbol that some
    file of the graph binds along one of its import edges. *)
Definition tracedOrigin (g : FileAnalysisResult) (x : FileName) : Prop :=
  exists importer info importPath symbols symbol,
    JS.get g importer = Some info /\
    In (importPath, symbols) (import info) /\
    In symbol symbols /\
    In x (traceSymbolSource g importPath symbol []) /\
    declares g symbol x.

(** Every key of the ledger is the resolution of a specifier that
    [isLocalImportPath] accepted. *)
Definition keysLocal {host : Host} (config : Config) (currentFilePath : string)
    (r : Result) : Prop :=
  forall k, In k (JS.keys (import r)) ->
            exists spec, isLocalImportPath config spec = true /\
                         k = resolveImportPath config currentFilePath spec.

(* ================================================================== *)
(** * Construction: [initPathsMapping] and the constructor *)

Section Construction.
Context {host : Host}.

(** [initPathsMapping(projectBaseDir, pathsMapping)]; the record
    [pathsMapping] is given by its [Object.entries]. *)
Definition initPathsMapping (projectBaseDir : string)
    (pathsMapping : list (string * string)) : JS.StrMap string :=
  fold_left
    (fun ret '(alias, relPath) =>
       let absPath := resolve projectBaseDir relPath in
       JS.set ret alias absPath)
    pathsMapping [].

(** [InitOptions], both fields optional; [PathsMappingOptions] holds
    [ProjectRoot] and the entries of [Paths]. *)
Record InitOptions := mkInitOptions {
  optionIndexDirs : option (list string);
  PathsMappingOptions : option (string * list (string * string))
}.

(** The constructor: the fields it assigns, and the fresh mutable state. *)
Definition construct (options : option InitOptions) : Config * Service :=
  let paths :=
    match options with
    | Some o =>
        match PathsMappingOptions o with
        | Some (ProjectRoot, Paths) => initPathsMapping ProjectRoot Paths
        | None => []
        end
    | None => []
    end in
  let dirs :=
    match options with
    | Some o => match optionIndexDirs o with Some d => d | None => [] end
    | None => []
    end in
  (mkConfig paths dirs, newService).

End Construction.

(* ================================================================== *)
(** * Further predicates of the statements *)

(** The leaf identifiers of a binding name. *)
Inductive leafOf (x : string) : BindingName -> Prop :=
| leaf_identifier : leafOf x (BindingIdentifier x)
| leaf_object elements e :
    In (Some e) elements -> leafOf x e -> leafOf x (ObjectBindingPattern elements)
| leaf_array elements e :
    In (Some e) elements -> leafOf x e -> leafOf x (ArrayBindingPattern elements).

(** [syntax] is the syntax of [node] or of one of its descendants. *)
Inductive occursIn (syntax : Syntax) : Node -> Prop :=
| occurs_here children : occursIn syntax (mkNode syntax children)
| occurs_below syntax' children child :
    In child children -> occursIn syntax child ->
    occursIn syntax (mkNode syntax' children).

(** Induction over binding names, with the hypothesis for every element
    of a pattern. *)
Section BindingInduction.
Variable P : BindingName -> Prop.
Let onElement (o : option BindingName) : Prop :=
  match o with Some e => P e | None => True end.
Hypothesis identifier : forall text, P (BindingIdentifier text).
Hypothesis object : forall elements,
    Forall onElement elements -> P (ObjectBindingPattern elements).
Hypothesis array : forall elements,
    Forall onElement elements -> P (ArrayBindingPattern elements).

Fixpoint BindingName_induction (b : BindingName) : P b :=
  let all :=
    fix all (es : list (option BindingName)) : Forall onElement es :=
      match es with
      | [] => Forall_nil onElement
      | o :: es' =>
          Forall_cons o
            (match o return onElement o with
             | Some e => BindingName_induction e
             | None => I
             end) (all es')
      end in
  match b with
  | BindingIdentifier text => identifier text
  | ObjectBindingPattern elements => object elements (all elements)
  | ArrayBindingPattern elements => array elements (all elements)
  end.
End BindingInduction.

(** What visiting one node can do to the Result under construction: leave
    it, record a style import, record symbols under a ledger key, extend
    [commonExport], set [defaultExport]; or several of these in turn. *)
Inductive effect {host : Host} (config : Config) (currentFilePath : string)
  : Result -> Result -> Prop :=
| effect_none r : effect config currentFilePath r r
| effect_style r spec :
    isStyleFile spec = true ->
    effect config currentFilePath r
           (recordStyle r (resolveStylePath config currentFilePath spec))
| effect_import r spec symbols :
    isLocalImportPath config spec = true ->
    effect config currentFilePath r
           (recordImport r (resolveImportPath config currentFilePath spec) symbols)
| effect_export r c :
    (forall s, In s (commonExport r) -> In s c) ->
    effect config currentFilePath r (with_commonExport r c)
| effect_default r d :
    effect config currentFilePath r (with_defaultExport r (Some d))
| effect_then r1 r2 r3 :
    effect config currentFilePath r1 r2 -> effect config currentFilePath r2 r3 ->
    effect config currentFilePath r1 r3.

(** The engine state after a step: untouched, or what one call of
    [getFileExports] left. *)
Definition lookedUp (getFileExports : FileName -> M (option Result))
    (st st' : Service) : Prop :=
  st' = st \/ exists p o, getFileExports p st = Some (o, st').

(** The declaration introduces the name [n]. *)
Definition declaresName (d : Declared) (n : string) : Prop :=
  match d with
  | FunctionOrClass (Some m) | NamedDeclaration (Some m) => m = n
  | Variables declarations => exists b, In b declarations /\ leafOf n b
  | _ => False
  end.

(** [r'] records everything [r] records: ledger keys and their symbols,
    export names, style imports, and a default export once set. *)
Definition grows (r r' : Result) : Prop :=
  (forall k, In k (JS.keys (import r)) -> In k (JS.keys (import r'))) /\
  (forall k s, In s (importedFrom r k) -> In s (importedFrom r' k)) /\
  (forall s, In s (commonExport r) -> In s (commonExport r')) /\
  (forall s, In s (styleImports r) -> In s (styleImports r')) /\
  (defaultExport r <> None -> defaultExport r' <> None).

(** Every Result of the graph of [st] is, unchanged, in the graph of [st']. *)
Definition graphKept (st st' : Service) : Prop :=
  forall k r, JS.get (depsGraph st) k = Some r -> JS.get (depsGraph st') k = Some r.

(** Every traced source of every symbol that [d] binds is in [finalDeps]. *)
Definition expanded (g : FileAnalysisResult) (finalDeps : JS.StrSet) (d : FileName)
  : Prop :=
  forall info importPath symbols symbol source,
    JS.get g d = Some info ->
    In (importPath, symbols) (import info) -> In symbol symbols ->
    In source (traceSymbolSource g importPath symbol []) ->
    In source finalDeps.

(** The final dependencies of [c] are among those of [c']. *)
Definition fdIncl (c c' : Closure) : Prop := incl (fst c) (fst c').

(** Further scenarios. *)
Module Cases.
Import Tree.

(** [namespace NS { export const inner = 1 }], the namespace itself not
    exported: the statement sits in the module block of the declaration. *)
Definition nestedExportTree : Node :=
  sourceFile
    [ mkNode (ModuleDeclaration [] (Identifier "NS"))
             [ leaf; mkNode OtherNode [ exportConst "inner" ] ] ].

(** A disk with nothing on it. *)
Definition emptyDisk : Host := Posix.hostOf [] [].

(** The graph of the barrel project: [index.ts] forwards [Foo] from
    [Foo.tsx], which declares it. *)
Definition barrelGraph : FileAnalysisResult :=
  [ ("/p/index.ts", mkResult [("/p/Foo.tsx", ["Foo"])] None ["Foo"] []);
    ("/p/Foo.tsx", mkResult [] None ["Foo"] ["/p/foo.css"]) ].

(** [f.ts] imports [./t] for its side effect and [D] from [./D]. *)
Definition sideEffectLedger : Result :=
  mkResult [("/p/t.ts", []); ("/p/D.ts", ["D"])] None [] [].

Definition sideEffectGraph : FileAnalysisResult :=
  [ ("/p/f.ts", sideEffectLedger);
    ("/p/t.ts", mkResult [] None ["x"] []);
    ("/p/D.ts", mkResult [] None ["D"] []) ].

(** A file that imports [S] from itself and exports it. *)
Definition selfImportGraph : FileAnalysisResult :=
  [ ("/p/f.ts", mkResult [("/p/f.ts", ["S"])] None ["S"] []) ].

End Cases.

(* ================================================================== *)
(** * Facts about the containers *)

Module JSFacts.
Import JS.

Lemma has_true (s : StrSet) (x : string) : has s x = true <-> In x s.
Proof.
  unfold has. rewrite existsb_exists. split.
  - intros [y [Hy He]]. apply String.eqb_eq in He. now subst.
  - intros Hin. exists x. split; [assumption | apply String.eqb_refl].
Qed.

Lemma has_false (s : StrSet) (x : string) : has s x = false <-> ~ In x s.
Proof.
  rewrite <- has_true. destruct (has s x); split; congruence.
Qed.

Lemma in_add (s : StrSet) (x y : string) : In y (add s x) <-> In y s \/ y = x.
Proof.
  unfold add. destruct (has s x) eqn:E.
  - apply has_true in E. split; [auto | intros [H | ->]; assumption].
  - rewrite in_app_iff. simpl. intuition.
Qed.

Lemma in_addAll (src dst : StrSet) (y : string) :
  In y (addAll dst src) <-> In y dst \/ In y src.
Proof.
  unfold addAll. revert dst. induction src as [| x src IH]; intros dst; simpl.
  - tauto.
  - rewrite IH, in_add. intuition.
Qed.

Lemma add_incl (s : StrSet) (x : string) : incl s (add s x).
Proof. intros y Hy. apply in_add. now left. Qed.

Lemma get_set {V} (m : StrMap V) (k k' : string) (v : V) :
  get (set m k v) k' = if String.eqb k' k then Some v else get m k'.
Proof.
  induction m as [| [k0 v0] m IH]; simpl.
  - reflexivity.
  - destruct (String.eqb k k0) eqn:E0; simpl.
    + apply String.eqb_eq in E0. subst k0.
      destruct (String.eqb k' k); reflexivity.
    + rewrite IH. destruct (String.eqb k' k0) eqn:E1; [| reflexivity].
      apply String.eqb_eq in E1. subst k0.
      destruct (String.eqb k' k) eqn:E2; [| reflexivity].
      apply String.eqb_eq in E2. subst k'. rewrite String.eqb_refl in E0.
      discriminate.
Qed.

Lemma in_keys_set {V} (m : StrMap V) (k k' : string) (v : V) :
  In k' (keys (set m k v)) <-> k' = k \/ In k' (keys m).
Proof.
  unfold keys. induction m as [| [k0 v0] m IH]; simpl.
  - intuition.
  - destruct (String.eqb k k0) eqn:E0; simpl.
    + apply String.eqb_eq in E0. subst k0. intuition.
    + rewrite IH. intuition.
Qed.

Lemma get_some_in {V} (m : StrMap V) (k : string) (v : V) :
  get m k = Some v -> exists k', k' = k /\ In (k', v) m.
Proof.
  induction m as [| [k0 v0] m IH]; simpl; [discriminate |].
  destruct (String.eqb k k0) eqn:E.
  - intros [= ->]. apply String.eqb_eq in E. subst. eauto.
  - intros H. destruct (IH H) as [k' [-> Hin]]. eauto.
Qed.

Lemma get_some_key {V} (m : StrMap V) (k : string) (v : V) :
  get m k = Some v -> In k (keys m).
Proof.
  intros H. destruct (get_some_in _ _ _ H) as [k' [-> Hin]].
  unfold keys. now apply (in_map fst) in Hin.
Qed.

End JSFacts.

(* ================================================================== *)
(** * Module resolver: the order of the candidates *)

Section ResolverFacts.
Context {host : Host}.

Lemma find_app {A} (f : A -> bool) (l1 l2 : list A) :
  find f (l1 ++ l2) = match find f l1 with
                      | Some x => Some x
                      | None => find f l2
                      end.
Proof.
  induction l1 as [| a l1 IH]; simpl; [reflexivity |].
  destruct (f a); [reflexivity | exact IH].
Qed.

Lemma probeAppended_find (filePath : string) (exts : list string) :
  probeAppended filePath exts = find existsSync (appended filePath exts).
Proof.
  induction exts as [| ext exts IH]; simpl; [reflexivity |].
  rewrite IH. reflexivity.
Qed.

Lemma probeIndex_find (dirPath : string) (exts : list string) :
  probeIndex dirPath exts = find existsSync (indexFiles dirPath exts).
Proof.
  induction exts as [| ext exts IH]; simpl; [reflexivity |].
  rewrite IH. reflexivity.
Qed.

(** C8, as the code has it: [resolveFilePath] returns the literal path when
    it is a regular file, else the first existing candidate among the path
    with [.ts, .tsx, .js, .jsx, .mjs, .cjs, .json] appended and then
    [index.<ext>] under the path in the same order, else [null]; and
    [findEntryFile] probes [index.<ext>] for the first four of these
    extensions only, [.ts, .tsx, .js, .jsx], in that order. *)
Theorem resolveFilePath_order (filePath : string) :
  resolveFilePath filePath = resolveFilePath_spec filePath /\
  findEntryFile filePath
  = find existsSync (indexFiles filePath (firstn 4 extensions)).
Proof.
  split.
  - unfold resolveFilePath, resolveFilePath_spec.
    destruct (existsSync filePath && isFile filePath); [reflexivity |].
    rewrite find_app, probeAppended_find, probeIndex_find.
    reflexivity.
  - unfold findEntryFile. rewrite probeIndex_find. reflexivity.
Qed.

End ResolverFacts.

(** C8 fails as stated: in a directory whose only entry file is
    [index.mjs], the resolver finds it and the entry probe, which stops
    after [.jsx], does not. *)
Lemma findEntryFile_skips_mjs :
  @resolveFilePath Demo.onlyIndexMjs "/d" = Some "/d/index.mjs" /\
  @findEntryFile_spec Demo.onlyIndexMjs "/d" = Some "/d/index.mjs" /\
  @findEntryFile Demo.onlyIndexMjs "/d" = None /\
  @findEntryFile Demo.onlyIndexMjs "/d" <> @findEntryFile_spec Demo.onlyIndexMjs "/d".
Proof.
  repeat split; try (vm_compute; reflexivity).
  vm_compute. discriminate.
Qed.

(* ================================================================== *)
(** * Symbol provenance tracer: totality and the recursive equation *)

Section TracerFacts.
Import JS JSFacts.

Lemma filter_length_mono {A} (p q : A -> bool) (l : list A) :
  (forall x, In x l -> q x = true -> p x = true) ->
  length (filter q l) <= length (filter p l).
Proof.
  induction l as [| a l IH]; intros Hpq; simpl; [lia |].
  assert (IH' : length (filter q l) <= length (filter p l)).
  { apply IH. intros x Hx. apply Hpq. now right. }
  destruct (q a) eqn:Eq.
  - rewrite (Hpq a (or_introl eq_refl) Eq). simpl. lia.
  - destruct (p a); simpl; lia.
Qed.

Lemma filter_length_strict {A} (p q : A -> bool) (l : list A) (a : A) :
  (forall x, In x l -> q x = true -> p x = true) ->
  In a l -> p a = true -> q a = false ->
  length (filter q l) < length (filter p l).
Proof.
  induction l as [| b l IH]; intros Hpq Hin Hp Hq; simpl; [contradiction |].
  assert (Hpq' : forall x, In x l -> q x = true -> p x = true).
  { intros x Hx. apply Hpq. now right. }
  pose proof (filter_length_mono p q l Hpq') as Hle.
  destruct Hin as [-> | Hin].
  - rewrite Hp, Hq. simpl. lia.
  - specialize (IH Hpq' Hin Hp Hq).
    destruct (q b) eqn:Eq.
    + rewrite (Hpq b (or_introl eq_refl) Eq). simpl. lia.
    + destruct (p b); simpl; lia.
Qed.

Lemma unvisited_bound (g : FileAnalysisResult) (visited : StrSet) :
  unvisited g visited <= length g.
Proof.
  unfold unvisited, keys.
  etransitivity; [apply List.filter_length_le | rewrite length_map; lia].
Qed.

Lemma not_has_add (visited : StrSet) (f k : string) :
  negb (has (add visited f) k) = true -> negb (has visited k) = true.
Proof.
  rewrite !negb_true_iff, !has_false. intros H Hin. apply H.
  apply in_add. now left.
Qed.

Lemma unvisited_add_lt (g : FileAnalysisResult) (visited : StrSet)
      (f : FileName) (info : Result) :
  has visited f = false -> get g f = Some info ->
  unvisited g (add visited f) < unvisited g visited.
Proof.
  intros Hv Hg. unfold unvisited.
  apply filter_length_strict with (a := f).
  - intros x _. apply not_has_add.
  - eapply get_some_key. eassumption.
  - now rewrite Hv.
  - apply negb_false_iff, has_true, in_add. now right.
Qed.

Variable g : FileAnalysisResult.
Variable symbol : SymbolName.

Lemma traceImports_some (recur : FileName -> option StrSet)
      (entries : list (FileName * StrSet)) :
  (forall p, exists r, recur p = Some r) ->
  forall found sources,
  exists out, traceImports recur symbol entries found sources = Some out.
Proof.
  intros Hrec. induction entries as [| [p syms] entries IH]; intros found sources;
    simpl.
  - eauto.
  - destruct (has syms symbol).
    + destruct (Hrec p) as [r ->]. apply IH.
    + apply IH.
Qed.

Lemma traceImports_ext (recur1 recur2 : FileName -> option StrSet)
      (entries : list (FileName * StrSet)) :
  (forall p r, recur1 p = Some r -> recur2 p = Some r) ->
  forall found sources out,
  traceImports recur1 symbol entries found sources = Some out ->
  traceImports recur2 symbol entries found sources = Some out.
Proof.
  intros Hrec. induction entries as [| [p syms] entries IH];
    intros found sources out; simpl.
  - trivial.
  - destruct (has syms symbol).
    + destruct (recur1 p) as [r |] eqn:E; [| discriminate].
      rewrite (Hrec _ _ E). apply IH.
    + apply IH.
Qed.

Lemma traceImports_spec (recur : FileName -> option StrSet)
      (entries : list (FileName * StrSet)) :
  forall found sources found' sources',
  traceImports recur symbol entries found sources = Some (found', sources') ->
  found' = found || existsb (carries symbol) entries /\
  forall x, In x sources' <->
            In x sources \/
            exists edge sub, In edge entries /\ carries symbol edge = true /\
                             recur (fst edge) = Some sub /\ In x sub.
Proof.
  induction entries as [| [p syms] entries IH];
    intros found sources found' sources'; simpl.
  - intros [= <- <-]. split; [now rewrite orb_false_r |].
    intros x. split; [auto |]. intros [H | (e & s & [] & _)]. assumption.
  - unfold carries at 1. simpl. destruct (has syms symbol) eqn:Ec.
    + destruct (recur p) as [sub |] eqn:Er; [| discriminate].
      intros H. apply IH in H. destruct H as [-> Hx]. split.
      * now rewrite orb_true_r.
      * intros x. rewrite Hx, in_addAll. split.
        -- intros [[H | H] | (e & s & Hin & Hc & Hr & Hs)].
           ++ now left.
           ++ right. exists (p, syms), sub. simpl. unfold carries. simpl. auto.
           ++ right. exists e, s. auto.
        -- intros [H | (e & s & [<- | Hin] & Hc & Hr & Hs)].
           ++ auto.
           ++ simpl in Hr. rewrite Er in Hr. injection Hr as <-. auto.
           ++ right. exists e, s. auto.
    + intros H. apply IH in H. destruct H as [-> Hx]. split; [reflexivity |].
      intros x. rewrite Hx. split.
      * intros [H | (e & s & Hin & Hc & Hr & Hs)]; [now left |].
        right. exists e, s. auto.
      * intros [H | (e & s & [<- | Hin] & Hc & Hr & Hs)]; [now left | |].
        -- unfold carries in Hc. simpl in Hc. congruence.
        -- right. exists e, s. auto.
Qed.

Lemma traceSymbolSourceFuel_S (fuel : nat) (filePath : string) (visited : StrSet) :
  traceSymbolSourceFuel (S fuel) g filePath symbol visited =
  if has visited filePath then Some []
  else match get g filePath with
       | None => Some (add [] filePath)
       | Some fileInfo =>
           if negb (isExported fileInfo symbol) then Some []
           else
             match traceImports
                     (fun importPath =>
                        traceSymbolSourceFuel fuel g importPath symbol
                                              (add visited filePath))
                     symbol (import fileInfo) false [] with
             | Some (foundInImports, sources) =>
                 if negb foundInImports then Some (add sources filePath)
                 else Some sources
             | None => None
             end
       end.
Proof. reflexivity. Qed.

(** Enough fuel: one frame more than the files the path can still visit. *)
Lemma traceSymbolSourceFuel_total (fuel : nat) :
  forall filePath visited,
  unvisited g visited < fuel ->
  exists sources, traceSymbolSourceFuel fuel g filePath symbol visited = Some sources.
Proof.
  induction fuel as [| fuel IH]; intros filePath visited Hfuel; [lia |].
  rewrite traceSymbolSourceFuel_S.
  destruct (has visited filePath) eqn:Hv; [eauto |].
  destruct (get g filePath) as [info |] eqn:Hg; [| eauto].
  destruct (negb (isExported info symbol)); [eauto |].
  pose proof (unvisited_add_lt g visited filePath info Hv Hg) as Hlt.
  destruct (traceImports_some
              (fun importPath =>
                 traceSymbolSourceFuel fuel g importPath symbol (add visited filePath))
              (import info)) with (found := false) (sources := @nil string)
    as [[found sources] ->].
  - intros p. apply IH. lia.
  - destruct (negb found); eauto.
Qed.

Lemma traceSymbolSourceFuel_step (fuel : nat) :
  forall filePath visited sources,
  traceSymbolSourceFuel fuel g filePath symbol visited = Some sources ->
  traceSymbolSourceFuel (S fuel) g filePath symbol visited = Some sources.
Proof.
  induction fuel as [| fuel IH]; intros filePath visited sources; [discriminate |].
  rewrite (traceSymbolSourceFuel_S (S fuel)), (traceSymbolSourceFuel_S fuel).
  destruct (has visited filePath); [trivial |].
  destruct (get g filePath) as [info |]; [| trivial].
  destruct (negb (isExported info symbol)); [trivial |].
  destruct (traceImports
              (fun importPath =>
                 traceSymbolSourceFuel fuel g importPath symbol (add visited filePath))
              symbol (import info) false []) as [out |] eqn:E; [| discriminate].
  rewrite (traceImports_ext _
             (fun importPath =>
                traceSymbolSourceFuel (S fuel) g importPath symbol
                                      (add visited filePath)) _
             (fun p r => IH p (add visited filePath) r) _ _ _ E).
  trivial.
Qed.

Lemma traceSymbolSourceFuel_mono (fuel fuel' : nat) :
  fuel <= fuel' ->
  forall filePath visited sources,
  traceSymbolSourceFuel fuel g filePath symbol visited = Some sources ->
  traceSymbolSourceFuel fuel' g filePath symbol visited = Some sources.
Proof.
  induction 1 as [| fuel' Hle IH]; intros filePath visited sources H.
  - assumption.
  - apply traceSymbolSourceFuel_step. now apply IH.
Qed.

(** Graph construction aside, tracing always returns: the stack never
    needs more than [length g + 1] frames. *)
Lemma traceSymbolSource_total (filePath : string) (visited : StrSet) :
  traceSymbolSourceFuel (S (length g)) g filePath symbol visited
  = Some (traceSymbolSource g filePath symbol visited).
Proof.
  unfold traceSymbolSource.
  destruct (traceSymbolSourceFuel_total (S (length g)) filePath visited) as [r Hr].
  - pose proof (unvisited_bound g visited). lia.
  - now rewrite Hr.
Qed.

Lemma traceSymbolSource_fuel (fuel : nat) (filePath : string) (visited : StrSet) :
  unvisited g visited < fuel ->
  traceSymbolSourceFuel fuel g filePath symbol visited
  = Some (traceSymbolSource g filePath symbol visited).
Proof.
  intros Hfuel.
  destruct (traceSymbolSourceFuel_total fuel filePath visited Hfuel) as [r Hr].
  rewrite Hr. f_equal.
  pose proof (traceSymbolSource_total filePath visited) as Ht.
  apply (traceSymbolSourceFuel_mono _ _ (Nat.le_max_l fuel (S (length g)))) in Hr.
  apply (traceSymbolSourceFuel_mono _ _ (Nat.le_max_r fuel (S (length g)))) in Ht.
  congruence.
Qed.

End TracerFacts.

Lemma filter_nil_existsb {A} (f : A -> bool) (l : list A) :
  filter f l = [] <-> existsb f l = false.
Proof.
  induction l as [| a l IH]; simpl; [tauto |].
  destruct (f a); simpl; [split; discriminate | exact IH].
Qed.

(** C6: [traceSymbolSource] satisfies the recursive equation of
    [traceOrigins]: empty on a file already on the path; [{file}] for a file
    absent from the graph; empty when [symbol] is not on the file's export
    surface; otherwise the union of the traces through every import edge
    whose symbol set contains [symbol], each with the path extended by
    [file]; and [{file}] when no edge carries [symbol].  Several origins are
    returned together, as a set. *)
Theorem traceSymbolSource_equation (g : FileAnalysisResult) (file : FileName)
    (symbol : SymbolName) (pathVisited : JS.StrSet) (x : FileName) :
  In x (traceSymbolSource g file symbol pathVisited) <->
  In x (traceOrigins_step (traceSymbolSource g) g file symbol pathVisited).
Proof.
  pose proof (traceSymbolSource_total g symbol file pathVisited) as Ht.
  rewrite traceSymbolSourceFuel_S in Ht. unfold traceOrigins_step.
  destruct (JS.has pathVisited file) eqn:Hv.
  { injection Ht as <-. reflexivity. }
  destruct (JS.get g file) as [info |] eqn:Hg.
  2: { injection Ht as <-. reflexivity. }
  change (if String.eqb symbol "default"
          then match defaultExport info with Some _ => true | None => false end
          else JS.has (commonExport info) symbol)
    with (isExported info symbol).
  destruct (isExported info symbol); simpl in Ht |- *.
  2: { injection Ht as <-. reflexivity. }
  destruct (traceImports _ symbol (import info) false [])
    as [[found sources] |] eqn:E; [| discriminate].
  apply traceImports_spec in E. destruct E as [Hfound Hsources].
  simpl in Hfound.
  assert (Hsub : forall p,
             traceSymbolSourceFuel (length g) g p symbol (JS.add pathVisited file)
             = Some (traceSymbolSource g p symbol (JS.add pathVisited file))).
  { intros p. apply traceSymbolSource_fuel.
    pose proof (unvisited_add_lt g pathVisited file info Hv Hg).
    pose proof (unvisited_bound g pathVisited). lia. }
  assert (Hflat : forall y,
             In y sources <->
             In y (flat_map (fun edge => traceSymbolSource g (fst edge) symbol
                                           (JS.add pathVisited file))
                            (filter (fun edge => JS.has (snd edge) symbol)
                                    (import info)))).
  { intros y. rewrite Hsources, in_flat_map. split.
    - intros [[] | (edge & sub & Hin & Hc & Hr & Hy)].
      rewrite Hsub in Hr. injection Hr as <-.
      exists edge. split; [apply filter_In; auto | assumption].
    - intros (edge & Hin & Hy). apply filter_In in Hin. destruct Hin as [Hin Hc].
      right. exists edge, (traceSymbolSource g (fst edge) symbol
                                             (JS.add pathVisited file)).
      auto. }
  destruct (filter _ (import info)) as [| e es] eqn:Ef.
  - apply filter_nil_existsb in Ef.
    assert (found = false) as -> by (rewrite Hfound; exact Ef).
    simpl in Ht. injection Ht as <-.
    assert (sources = []) as ->.
    { destruct sources as [| y ys]; [reflexivity |].
      destruct (proj1 (Hflat y) (or_introl eq_refl)). }
    reflexivity.
  - assert (found = true) as ->.
    { rewrite Hfound. apply not_false_iff_true. intros Hn.
      apply filter_nil_existsb in Hn.
      assert (e :: es = []) by (rewrite <- Ef; exact Hn). discriminate. }
    simpl in Ht. injection Ht as <-. apply Hflat.
Qed.

(* ================================================================== *)
(** * Extraction: how often, and whether it returns *)

Lemma bind_none {A B} (c : M A) (k : A -> M B) (st : Service) :
  c st = None -> bind c k st = None.
Proof. unfold bind. now intros ->. Qed.

Lemma bind_some {A B} (c : M A) (k : A -> M B) (st st' : Service) (a : A) :
  c st = Some (a, st') -> bind c k st = k a st'.
Proof. unfold bind. now intros ->. Qed.

Section BuilderFacts.
Context {host : Host} (config : Config).

Lemma analyzeFile_S (fuel : nat) (absolutePath : string) :
  analyzeFile config (S fuel) absolutePath =
  match readSourceFile absolutePath with
  | None => ret None
  | Some sourceFile =>
      _ <- logExtraction absolutePath ;;
      result <- visitNode config (getFileExportsWith (analyzeFile config fuel))
                          sourceFile emptyResult absolutePath ;;
      _ <- updateCache absolutePath result ;;
      ret (Some result)
  end.
Proof. reflexivity. Qed.

(** A namespace import of a local module looks its target up through
    [getFileExports] and does not return unless the lookup does. *)
Lemma namespaceImport_waits (getFileExports : FileName -> M (option Result))
      (ns spec currentFilePath : string) (rest : list Node) (result : Result)
      (st : Service) :
  isStyleFile spec = false ->
  isLocalImportPath config spec = true ->
  getFileExports (resolveImportPath config currentFilePath spec) st = None ->
  visitNode config getFileExports
            (Tree.sourceFile (Tree.importNamespace ns spec :: rest))
            result currentFilePath st = None.
Proof.
  intros Hstyle Hlocal Hnone.
  unfold Tree.sourceFile, Tree.importNamespace, Tree.stmt. simpl.
  unfold handleImportDeclaration. rewrite Hstyle, Hlocal. simpl.
  unfold bind, ret. rewrite Hnone. reflexivity.
Qed.

End BuilderFacts.

Module NamespaceCycle.
Import Demo.

Local Existing Instance namespaceCycle.

Lemma fresh_logExtraction (p : FileName) (st : Service) :
  fresh st -> fresh (mkService (depsGraph st) (analyzedFiles st)
                               (exportCache st) (extractionLog st ++ [p])).
Proof. trivial. Qed.

Lemma lookup_diverges (analyze : FileName -> M (option Result))
      (target : FileName) (st : Service) :
  JS.get (exportCache st) target = None ->
  JS.get (depsGraph st) target = None ->
  whenTruthy (resolveFilePath target) = Some target ->
  analyze target st = None ->
  getFileExportsWith analyze target st = None.
Proof.
  intros Hc Hg Hr Ha. unfold getFileExportsWith, bind, getState.
  rewrite Hc, Hg, Hr. exact Ha.
Qed.

(** Each file's extraction asks for the other's export surface before it
    has cached its own: however deep the stack may grow, neither returns. *)
Lemma analyzeFile_diverges (fuel : nat) :
  forall st, fresh st ->
  analyzeFile noAliases fuel fileA st = None /\
  analyzeFile noAliases fuel fileB st = None.
Proof.
  induction fuel as [| fuel IH]; intros st Hfresh; [split; reflexivity |].
  rewrite !analyzeFile_S.
  change (readSourceFile fileA)
    with (Some (Tree.sourceFile [Tree.importNamespace "b" "./B"])).
  change (readSourceFile fileB)
    with (Some (Tree.sourceFile [Tree.importNamespace "a" "./A"])).
  pose proof (fresh_logExtraction fileA st Hfresh) as HfA.
  pose proof (fresh_logExtraction fileB st Hfresh) as HfB.
  destruct (IH _ HfA) as [_ HB]. destruct (IH _ HfB) as [HA _].
  destruct HfA as (HA1 & HA2 & HA3 & HA4).
  destruct HfB as (HB1 & HB2 & HB3 & HB4).
  split.
  - rewrite (bind_some _ _ st _ tt eq_refl).
    apply bind_none. apply namespaceImport_waits; try reflexivity.
    change (resolveImportPath noAliases fileA "./B") with fileB.
    apply lookup_diverges; auto.
  - rewrite (bind_some _ _ st _ tt eq_refl).
    apply bind_none. apply namespaceImport_waits; try reflexivity.
    change (resolveImportPath noAliases fileB "./A") with fileA.
    apply lookup_diverges; auto.
Qed.

Lemma fresh_newService : fresh newService.
Proof. repeat split. Qed.

Lemma analyzeFileRecursive_diverges (fuel : nat) (file : FileName) :
  file = fileA \/ file = fileB ->
  analyzeFileRecursive noAliases fuel file [] newService = None.
Proof.
  intros Hfile. destruct fuel as [| fuel]; [reflexivity |].
  destruct (analyzeFile_diverges fuel newService fresh_newService) as [HA HB].
  destruct Hfile as [-> | ->]; simpl.
  - change (whenTruthy (resolveFilePath fileA)) with (Some fileA).
    unfold bind, getState. simpl. fold fileA. now rewrite HA.
  - change (whenTruthy (resolveFilePath fileB)) with (Some fileB).
    unfold bind, getState. simpl. fold fileB. now rewrite HB.
Qed.

End NamespaceCycle.

(** C9 at [A.ts]: [import * as b from './B'] and [B.ts]:
    [import * as a from './A']: graph construction does not complete from
    either file, whatever depth of stack is allowed, and so [query] neither. *)
Theorem namespace_cycle_never_returns (fuel : nat) :
  @analyzeFileRecursive Demo.namespaceCycle Demo.noAliases fuel "/p/A.ts" []
                        newService = None /\
  @analyzeFileRecursive Demo.namespaceCycle Demo.noAliases fuel "/p/B.ts" []
                        newService = None /\
  @query Demo.namespaceCycle Demo.noAliases fuel "/p/A.ts" newService = None /\
  @query Demo.namespaceCycle Demo.noAliases fuel "/p/B.ts" newService = None.
Proof.
  pose proof (NamespaceCycle.analyzeFileRecursive_diverges fuel "/p/A.ts"
                (or_introl eq_refl)) as HA.
  pose proof (NamespaceCycle.analyzeFileRecursive_diverges fuel "/p/B.ts"
                (or_intror eq_refl)) as HB.
  repeat split; try assumption.
  - unfold query.
    change (whenTruthy (@resolveFilePath Demo.namespaceCycle "/p/A.ts"))
      with (Some "/p/A.ts").
    unfold bind, getState. simpl. now rewrite HA.
  - unfold query.
    change (whenTruthy (@resolveFilePath Demo.namespaceCycle "/p/B.ts"))
      with (Some "/p/B.ts").
    unfold bind, getState. simpl. now rewrite HB.
Qed.

(** C1 at [A.ts]: [import * as ns from './X']: one [query] runs the
    extraction pass over [X.ts] twice, first from [getFileExports] while
    [A.ts] is extracted and then from [analyzeFileRecursive], which consults
    the graph only; the second pass overwrites the cached Result. *)
Theorem namespace_target_extracted_twice :
  option_map (fun out => (fst out,
                          extractionLog (snd out),
                          count_occ string_dec (extractionLog (snd out)) "/p/X.ts"))
             (@query Demo.namespaceImport Demo.noAliases 3 "/p/A.ts" newService)
  = Some (["/p/X.ts"], ["/p/A.ts"; "/p/X.ts"; "/p/X.ts"], 2).
Proof. vm_compute. reflexivity. Qed.

(** C2 at [B.ts]: [export { x as default } from './X']: the extraction
    puts the name ["default"] into [commonExport] and leaves [defaultExport]
    null. *)
Theorem default_reexport_in_commonExport :
  option_map (fun out => option_map (fun r => (commonExport r, defaultExport r))
                                    (fst out))
             (@analyzeFile Demo.defaultReexport Demo.noAliases 1 "/p/B.ts" newService)
  = Some (Some (["default"], None)).
Proof. vm_compute. reflexivity. Qed.

(* ================================================================== *)
(** * Import declarations: namespace imports and side-effect imports *)

Lemma forEachO_app {A S} (body : A -> S -> option S) (l1 l2 : list A) (s : S) :
  forEachO body (l1 ++ l2) s =
  match forEachO body l1 s with
  | Some s' => forEachO body l2 s'
  | None => None
  end.
Proof.
  revert s. induction l1 as [| a l1 IH]; intros s; simpl; [reflexivity |].
  destruct (body a s); [apply IH | reflexivity].
Qed.

Lemma in_addTargetExports (symbols : JS.StrSet) (t : Result) (s : string) :
  In s (addTargetExports symbols t) <->
  In s symbols \/ In s (commonExport t) \/
  (s = "default" /\ truthy (defaultExport t) = true).
Proof.
  unfold addTargetExports. destruct (truthy (defaultExport t)).
  - rewrite JSFacts.in_add, JSFacts.in_addAll. intuition.
  - rewrite JSFacts.in_addAll. intuition discriminate.
Qed.

Section ImportFacts.
Context {host : Host} (config : Config).
Variable getFileExports : FileName -> M (option Result).

(** C3, as the code has it: for [import * as ns from spec] with a local,
    non-style [spec] resolved to [target], the extractor adds to the
    ledger entry of [target] the export names that [getFileExports]
    reports for it: its [commonExport], and ["default"] when its
    [defaultExport] is a non-empty string.  The sentinel ["*"] is not
    added.  When that set is empty (the target cannot be analyzed, or
    exports nothing) the Result is left as it was: the import creates no
    entry. *)
Theorem namespace_import_records_surface
    (spec ns currentFilePath : string) (result : Result) (st st' : Service)
    (targetExports : option Result) :
  isStyleFile spec = false ->
  isLocalImportPath config spec = true ->
  getFileExports (resolveImportPath config currentFilePath spec) st
  = Some (targetExports, st') ->
  exists (result' : Result) (names : JS.StrSet),
    handleImportDeclaration config getFileExports (StringLiteral spec)
      (Some (mkImportClause None (Some (NamespaceImport ns))))
      result currentFilePath st = Some (result', st') /\
    (forall s, In s names <->
               exists t, targetExports = Some t /\
                         (In s (commonExport t) \/
                          (s = "default" /\ truthy (defaultExport t) = true))) /\
    (names = [] -> result' = result) /\
    (names <> [] ->
     JS.get (import result') (resolveImportPath config currentFilePath spec)
     = Some (JS.addAll
               (importedFrom result (resolveImportPath config currentFilePath spec))
               names)).
Proof.
  intros Hstyle Hlocal Hget.
  set (names := match targetExports with
                | Some t => addTargetExports [] t
                | None => []
                end).
  assert (Hrun :
            handleImportDeclaration config getFileExports (StringLiteral spec)
              (Some (mkImportClause None (Some (NamespaceImport ns))))
              result currentFilePath st
            = Some (match names with
                    | [] => result
                    | _ => recordImport result
                             (resolveImportPath config currentFilePath spec) names
                    end, st')).
  { unfold handleImportDeclaration. rewrite Hstyle, Hlocal. simpl.
    unfold bind. rewrite Hget. subst names.
    destruct targetExports as [t |]; simpl; [| reflexivity].
    destruct (addTargetExports [] t); reflexivity. }
  eexists. exists names. split; [exact Hrun |]. split; [| split].
  - intros s. subst names. destruct targetExports as [t |].
    + rewrite in_addTargetExports. split.
      * intros [[] | H]. exists t. auto.
      * intros (t' & [= <-] & H). auto.
    + split; [intros [] | intros (t & [=] & _)].
  - now intros ->.
  - intros Hne. destruct names as [| n ns']; [congruence |].
    unfold recordImport. simpl. rewrite JSFacts.get_set, String.eqb_refl.
    reflexivity.
Qed.

End ImportFacts.

(** A file whose ledger holds side-effect edges only has an empty closure. *)
Lemma side_effect_edges_trace_nothing (recur : FileName -> Closure -> option Closure)
      (g : FileAnalysisResult) (entries : list (FileName * JS.StrSet)) (c : Closure) :
  (forall edge, In edge entries -> snd edge = []) ->
  expandEdges recur g entries c = Some c.
Proof.
  unfold expandEdges. induction entries as [| [t syms] entries IH]; intros Hall;
    simpl; [reflexivity |].
  pose proof (Hall (t, syms) (or_introl eq_refl)) as Hsyms. simpl in Hsyms.
  subst syms. simpl.
  apply IH. intros edge Hin. apply Hall. now right.
Qed.

(** C3 fails as stated, twice over: with no [X] on disk the namespace import
    of [./X] leaves the ledger empty, and with [X.ts] exporting [foo] the
    entry is [{foo}], without ["*"]. *)
Lemma namespace_import_without_star :
  option_map (fun out => option_map import (fst out))
             (@analyzeFile Demo.namespaceOfMissing Demo.noAliases 1 "/p/A.ts" newService)
  = Some (Some []) /\
  option_map (fun out => option_map import (fst out))
             (@analyzeFile Demo.namespaceImport Demo.noAliases 2 "/p/A.ts" newService)
  = Some (Some [("/p/X.ts", ["foo"])]) /\
  JS.has ["foo"] "*" = false.
Proof. repeat split; vm_compute; reflexivity. Qed.

(* ================================================================== *)
(** * The import ledger: which keys extraction records *)


(** Case analysis on the monadic code in hypothesis [H]. *)
Ltac run_in H :=
  repeat (unfold bind, ret in H;
          match type of H with
          | Some _ = Some _ => injection H as ? ?; subst
          | None = Some _ => discriminate H
          | context [match ?x with _ => _ end] => destruct x eqn:?
          end).

Section LedgerFacts.
Context {host : Host} (config : Config).
Variable getFileExports : FileName -> M (option Result).
Variable currentFilePath : string.

Local Abbreviation keysLocal := (keysLocal config currentFilePath).


Lemma keysLocal_import (r r' : Result) :
  import r' = import r -> keysLocal r -> keysLocal r'.
Proof. unfold keysLocal. now intros ->. Qed.

Lemma keysLocal_recordImport (r : Result) (spec : string) (symbols : JS.StrSet) :
  isLocalImportPath config spec = true -> keysLocal r ->
  keysLocal (recordImport r (resolveImportPath config currentFilePath spec) symbols).
Proof.
  intros Hlocal Hr k. unfold recordImport. simpl.
  rewrite JSFacts.in_keys_set. intros [-> | Hk]; [eauto | auto].
Qed.

Lemma import_recordStyle (r : Result) (p : option string) :
  import (recordStyle r p) = import r.
Proof.
  unfold recordStyle. destruct (truthy p); [| reflexivity].
  destruct p; reflexivity.
Qed.

Lemma import_exportedVariables (declarations : list BindingName) (r : Result) :
  import (fold_left
            (fun result decl =>
               match decl with
               | BindingIdentifier text =>
                   with_commonExport result (JS.add (commonExport result) text)
               | ObjectBindingPattern elements | ArrayBindingPattern elements =>
                   with_commonExport result
                     (JS.addAll (commonExport result) (extractBindingNames elements))
               end) declarations r)
  = import r.
Proof.
  revert r. induction declarations as [| d ds IH]; intros r; simpl; [reflexivity |].
  rewrite IH. destruct d; reflexivity.
Qed.

Lemma import_handleExportedDeclaration (modifiers : list Modifier) (d : Declared)
      (r : Result) :
  import (handleExportedDeclaration modifiers d r) = import r.
Proof.
  unfold handleExportedDeclaration.
  destruct (negb (hasModifier ExportKeyword modifiers)); [reflexivity |].
  destruct (hasModifier DefaultKeyword modifiers).
  - destruct d; reflexivity.
  - destruct d as [[n |] | [n |] | ds |]; try reflexivity.
    apply import_exportedVariables.
Qed.

Lemma import_handleExportAssignment (isExportEquals : bool) (e : Expression)
      (r : Result) :
  import (handleExportAssignment isExportEquals e r) = import r.
Proof.
  unfold handleExportAssignment. destruct isExportEquals; [reflexivity |].
  destruct e as [| | [n |] | [n |] | |]; reflexivity.
Qed.

Create HintDb ledger.
#[local] Hint Resolve keysLocal_recordImport : ledger.

Lemma keysLocal_style (r : Result) (p : option string) :
  keysLocal r -> keysLocal (recordStyle r p).
Proof. apply keysLocal_import, import_recordStyle. Qed.

#[local] Hint Resolve keysLocal_style : ledger.

Lemma keysLocal_handleImportDeclaration (moduleSpecifier : Expression)
      (importClause : option ImportClause) (r r' : Result) (st st' : Service) :
  keysLocal r ->
  handleImportDeclaration config getFileExports moduleSpecifier importClause
                          r currentFilePath st = Some (r', st') ->
  keysLocal r'.
Proof.
  intros Hr H. unfold handleImportDeclaration in H.
  destruct moduleSpecifier as [importPath | | | | |];
    try (injection H as <- <-; exact Hr).
  destruct (isStyleFile importPath).
  { injection H as <- <-. auto with ledger. }
  destruct (isLocalImportPath config importPath) eqn:Hlocal; simpl in H.
  2: { injection H as <- <-. exact Hr. }
  run_in H; auto with ledger.
Qed.

Lemma keysLocal_importTargetSurface (importPath : string) (r r' : Result)
      (st st' : Service) :
  keysLocal r ->
  importTargetSurface config getFileExports importPath r currentFilePath st
  = Some (r', st') ->
  keysLocal r'.
Proof.
  intros Hr H. unfold importTargetSurface in H.
  destruct (isStyleFile importPath).
  { injection H as <- <-. auto with ledger. }
  destruct (isLocalImportPath config importPath) eqn:Hlocal.
  2: { injection H as <- <-. exact Hr. }
  run_in H; auto with ledger.
Qed.

Lemma keysLocal_handleExportDeclaration (moduleSpecifier : option Expression)
      (exportClause : option NamedExportBindings) (r r' : Result)
      (st st' : Service) :
  keysLocal r ->
  handleExportDeclaration config getFileExports moduleSpecifier exportClause
                          r currentFilePath st = Some (r', st') ->
  keysLocal r'.
Proof.
  intros Hr H. unfold handleExportDeclaration in H.
  assert (Hlocal_case :
            forall exportPath importSymbols exportSymbols,
              isLocalImportPath config exportPath = true ->
              keysLocal
                (with_commonExport
                   (if (0 <? length importSymbols)%nat
                    then recordImport r
                           (resolveImportPath config currentFilePath exportPath)
                           importSymbols
                    else r)
                   exportSymbols)).
  { intros exportPath importSymbols exportSymbols Hlocal.
    destruct (0 <? length importSymbols)%nat; simpl.
    - eapply keysLocal_import; [| apply keysLocal_recordImport; eassumption].
      reflexivity.
    - exact Hr. }
  destruct moduleSpecifier as [[exportPath | | | | |] |].
  1: { destruct (isLocalImportPath config exportPath) eqn:Hlocal.
       2: { injection H as <- <-. exact Hr. }
       unfold bind in H.
       match type of H with
       | match ?c with _ => _ end = _ =>
           destruct c as [[[importSymbols exportSymbols] st1] |]; [| discriminate]
       end.
       injection H as <- <-.
       eapply keysLocal_import;
         [| apply (Hlocal_case exportPath importSymbols [] Hlocal)].
       reflexivity. }
  all: destruct exportClause as [[elements | nsName] |];
    injection H as <- <-; exact Hr.
Qed.

Lemma keysLocal_visitSyntax (syntax : Syntax) (r r' : Result) (st st' : Service) :
  keysLocal r ->
  visitSyntax config getFileExports syntax r currentFilePath st = Some (r', st') ->
  keysLocal r'.
Proof.
  intros Hr H.
  assert (Hdecl : forall modifiers d,
             keysLocal (handleExportedDeclaration modifiers d r)).
  { intros. eapply keysLocal_import;
      [apply import_handleExportedDeclaration | exact Hr]. }
  destruct syntax; simpl in H;
    try (destruct (hasModifier ExportKeyword modifiers);
         injection H as <- <-; solve [apply Hdecl | exact Hr]).
  - eapply keysLocal_handleImportDeclaration; eassumption.
  - unfold handleImportEquals in H.
    destruct moduleReference as [[[[importPath | | | | |] |] |] |];
      try (injection H as <- <-; exact Hr).
    eapply keysLocal_importTargetSurface; eassumption.
  - assert (Hargs : forall r2 st2,
               match arguments with
               | StringLiteral importPath :: _ =>
                   importTargetSurface config getFileExports importPath r
                                       currentFilePath
               | _ => ret r
               end st = Some (r2, st2) -> keysLocal r2).
    { intros r2 st2 H2.
      destruct arguments as [| [importPath | | | | |] args];
        try (injection H2 as <- <-; exact Hr).
      eapply keysLocal_importTargetSurface; eassumption. }
    destruct expression; simpl in H;
      try (apply (Hargs _ _ H));
      try (injection H as <- <-; exact Hr).
    destruct (String.eqb text "require" && (0 <? length arguments)%nat);
      [apply (Hargs _ _ H) | injection H as <- <-; exact Hr].
  - eapply keysLocal_handleExportDeclaration; eassumption.
  - injection H as <- <-.
    eapply keysLocal_import; [apply import_handleExportAssignment | exact Hr].
  - destruct moduleName; simpl in H;
      destruct (hasModifier ExportKeyword modifiers);
      injection H as <- <-; solve [apply Hdecl | exact Hr].
  - injection H as <- <-. exact Hr.
Qed.

Lemma keysLocal_visitNode (node : Node) :
  forall r r' st st',
  keysLocal r ->
  visitNode config getFileExports node r currentFilePath st = Some (r', st') ->
  keysLocal r'.
Proof.
  induction node as [syntax children IH] using Node_induction.
  intros r r' st st' Hr H. simpl in H. unfold bind at 1 in H.
  destruct (visitSyntax config getFileExports syntax r currentFilePath st)
    as [[r1 st1] |] eqn:Hs; [| discriminate].
  apply keysLocal_visitSyntax in Hs; [| exact Hr].
  clear Hr. revert r1 st1 Hs H.
  induction IH as [| child children Hchild _ IHchildren]; intros r1 st1 Hr1 H.
  - injection H as <- <-. exact Hr1.
  - unfold bind at 1 in H.
    destruct (visitNode config getFileExports child r1 currentFilePath st1)
      as [[r2 st2] |] eqn:Hc; [| discriminate].
    eapply IHchildren; [| exact H]. eapply Hchild; eassumption.
Qed.

End LedgerFacts.




(* ================================================================== *)
(** * The closure: where the members of a query result come from *)

Lemma forEachO_invariant {A S} (P : S -> Prop) (body : A -> S -> option S)
      (xs : list A) :
  (forall x s s', In x xs -> P s -> body x s = Some s' -> P s') ->
  forall s s', P s -> forEachO body xs s = Some s' -> P s'.
Proof.
  induction xs as [| x xs IH]; intros Hbody s s' Hs H; simpl in H.
  - now injection H as <-.
  - destruct (body x s) as [s1 |] eqn:E; [| discriminate].
    apply (IH (fun y t t' Hy => Hbody y t t' (or_intror Hy)) s1 s'); [| exact H].
    apply (Hbody x s s1 (or_introl eq_refl) Hs E).
Qed.

Section ClosureFacts.
Variable g : FileAnalysisResult.


Lemma traceSymbolSourceFuel_declares (symbol : SymbolName) (fuel : nat) :
  forall filePath visited sources x,
  traceSymbolSourceFuel fuel g filePath symbol visited = Some sources ->
  In x sources -> declares g symbol x.
Proof.
  induction fuel as [| fuel IH]; intros filePath visited sources x H Hx;
    [discriminate |].
  rewrite traceSymbolSourceFuel_S in H.
  destruct (JS.has visited filePath).
  { injection H as <-. destruct Hx. }
  destruct (JS.get g filePath) as [info |] eqn:Hg.
  2: { injection H as <-. destruct Hx as [<- | []]. now left. }
  destruct (isExported info symbol) eqn:He; simpl in H.
  2: { injection H as <-. destruct Hx. }
  destruct (traceImports _ symbol (import info) false [])
    as [[found sources1] |] eqn:E; [| discriminate].
  apply traceImports_spec in E. destruct E as [Hfound Hsources].
  assert (Hsub : In x sources1 -> declares g symbol x).
  { intros H1. apply Hsources in H1.
    destruct H1 as [[] | (edge & sub & _ & _ & Hr & Hin)].
    eapply IH; eassumption. }
  destruct found; simpl in H; injection H as <-; [auto |].
  apply JSFacts.in_add in Hx. destruct Hx as [Hx | ->]; [auto |].
  right. exists info. repeat split; try assumption.
  intros edge Hin. simpl in Hfound. symmetry in Hfound.
  rewrite <- not_true_iff_false in Hfound |- *.
  intros Hc. apply Hfound. apply existsb_exists. exists edge. auto.
Qed.

Lemma traceSymbolSource_declares (symbol : SymbolName) (filePath : string)
      (visited : JS.StrSet) (x : FileName) :
  In x (traceSymbolSource g filePath symbol visited) -> declares g symbol x.
Proof.
  apply (traceSymbolSourceFuel_declares symbol (S (length g)) filePath visited).
  apply traceSymbolSource_total.
Qed.

Lemma expandEdges_invariant (P : Closure -> Prop)
      (recur : FileName -> Closure -> option Closure)
      (entries : list (FileName * JS.StrSet)) :
  (forall importPath symbols symbol source finalDeps visited c',
      In (importPath, symbols) entries -> In symbol symbols ->
      In source (traceSymbolSource g importPath symbol []) ->
      P (finalDeps, visited) ->
      recur source (JS.add finalDeps source, visited) = Some c' -> P c') ->
  forall c c', P c -> expandEdges recur g entries c = Some c' -> P c'.
Proof.
  intros Hstep. unfold expandEdges.
  apply forEachO_invariant. intros [importPath symbols] c1 c1' Hedge.
  apply forEachO_invariant. intros symbol c2 c2' Hsym.
  apply forEachO_invariant. intros source [finalDeps visited] c3' Hsource Hc.
  eapply Hstep; eassumption.
Qed.

(** Every final dependency was put there as a traced origin. *)
Lemma findAllFinalDependencies_origins (fuel : nat) :
  forall filePath finalDeps visited finalDeps' visited',
  findAllFinalDependencies fuel g filePath (finalDeps, visited)
  = Some (finalDeps', visited') ->
  forall x, In x finalDeps' -> In x finalDeps \/ tracedOrigin g x.
Proof.
  induction fuel as [| fuel IH];
    intros filePath finalDeps visited finalDeps' visited' H; [discriminate |].
  simpl in H. destruct (JS.has visited filePath).
  { injection H as <- <-. auto. }
  destruct (JS.get g filePath) as [info |] eqn:Hg.
  2: { injection H as <- <-. auto. }
  set (P := fun c : Closure =>
              forall x, In x (fst c) -> In x finalDeps \/ tracedOrigin g x).
  assert (Hstep : forall importPath symbols symbol source fd v c',
             In (importPath, symbols) (import info) -> In symbol symbols ->
             In source (traceSymbolSource g importPath symbol []) ->
             P (fd, v) ->
             findAllFinalDependencies fuel g source (JS.add fd source, v)
             = Some c' -> P c').
  { intros importPath symbols symbol source fd v [fd' v']
           Hedge Hsym Hsource Hc Hrec.
    unfold P in Hc |- *. simpl in Hc |- *. intros x Hx.
    destruct (IH _ _ _ _ _ Hrec x Hx) as [Hin | Ho]; [| auto].
    apply JSFacts.in_add in Hin. destruct Hin as [Hin | ->]; [auto |].
    right. exists filePath, info, importPath, symbols, symbol.
    repeat split; try assumption.
    eapply traceSymbolSource_declares. eassumption. }
  assert (Hinit : P (finalDeps, JS.add visited filePath)).
  { intros x Hx. now left. }
  apply (expandEdges_invariant P _ _ Hstep _ _ Hinit H).
Qed.

Lemma in_collectStyles (finalDeps : JS.StrSet) (x : FileName) :
  In x (collectStyles g finalDeps) <->
  exists dep info, In dep finalDeps /\ JS.get g dep = Some info /\
                   In x (styleImports info).
Proof.
  unfold collectStyles.
  assert (Hgen : forall acc,
             In x (fold_left
                     (fun styleDeps depFile =>
                        match JS.get g depFile with
                        | Some fileInfo => JS.addAll styleDeps (styleImports fileInfo)
                        | None => styleDeps
                        end) finalDeps acc) <->
             In x acc \/
             exists dep info, In dep finalDeps /\ JS.get g dep = Some info /\
                              In x (styleImports info)).
  { induction finalDeps as [| d ds IH]; intros acc; simpl.
    - split; [auto | intros [H | (dep & info & [] & _)]; exact H].
    - rewrite IH. destruct (JS.get g d) as [info |] eqn:Hd.
      + rewrite JSFacts.in_addAll. split.
        * intros [[H | H] | (dep & i & Hin & Hg & Hs)]; [auto | |].
          -- right. exists d, info. auto.
          -- right. exists dep, i. auto.
        * intros [H | (dep & i & [<- | Hin] & Hg & Hs)]; [auto | |].
          -- rewrite Hd in Hg. injection Hg as <-. auto.
          -- right. exists dep, i. auto.
      + split.
        * intros [H | (dep & i & Hin & Hg & Hs)]; [auto |].
          right. exists dep, i. auto.
        * intros [H | (dep & i & [<- | Hin] & Hg & Hs)]; [auto | congruence |].
          right. exists dep, i. auto. }
  rewrite Hgen. split; [intros [[] | H]; exact H | auto].
Qed.

End ClosureFacts.

(* ================================================================== *)
(** * The closure computation returns on every graph *)

Lemma forEachO_total {A S} (P : S -> Prop) (body : A -> S -> option S)
      (xs : list A) :
  (forall x s, In x xs -> P s -> exists s', body x s = Some s' /\ P s') ->
  forall s, P s -> exists s', forEachO body xs s = Some s' /\ P s'.
Proof.
  induction xs as [| x xs IH]; intros Hbody s Hs; simpl.
  - eauto.
  - destruct (Hbody x s (or_introl eq_refl) Hs) as (s1 & -> & Hs1).
    apply IH; [| exact Hs1]. intros y t Hy. apply Hbody. now right.
Qed.

Section ClosureTermination.
Variable g : FileAnalysisResult.

Lemma in_importKeys (f p : FileName) (info : Result) (symbols : JS.StrSet) :
  JS.get g f = Some info -> In (p, symbols) (import info) -> In p (importKeys g).
Proof.
  intros Hg Hedge. unfold importKeys. apply in_flat_map.
  destruct (JSFacts.get_some_in _ _ _ Hg) as (k & _ & Hin).
  exists (k, info). split; [exact Hin |].
  simpl. unfold JS.keys. now apply (in_map fst) in Hedge.
Qed.

(** A traced source is the file the trace started from or an import key. *)
Lemma traceSymbolSourceFuel_sources (symbol : SymbolName) (fuel : nat) :
  forall filePath visited sources x,
  traceSymbolSourceFuel fuel g filePath symbol visited = Some sources ->
  In x sources -> x = filePath \/ In x (importKeys g).
Proof.
  induction fuel as [| fuel IH]; intros filePath visited sources x H Hx;
    [discriminate |].
  rewrite traceSymbolSourceFuel_S in H.
  destruct (JS.has visited filePath).
  { injection H as <-. destruct Hx. }
  destruct (JS.get g filePath) as [info |] eqn:Hg.
  2: { injection H as <-. destruct Hx as [<- | []]. now left. }
  destruct (isExported info symbol); simpl in H.
  2: { injection H as <-. destruct Hx. }
  destruct (traceImports _ symbol (import info) false [])
    as [[found sources1] |] eqn:E; [| discriminate].
  apply traceImports_spec in E. destruct E as [_ Hsources].
  assert (Hsub : In x sources1 -> In x (importKeys g)).
  { intros H1. apply Hsources in H1.
    destruct H1 as [[] | ([p symbols] & sub & Hedge & _ & Hr & Hin)].
    destruct (IH _ _ _ _ Hr Hin) as [-> | Hk]; [| exact Hk].
    eapply in_importKeys; eassumption. }
  destruct found; simpl in H; injection H as <-; [auto |].
  apply JSFacts.in_add in Hx. destruct Hx as [Hx | ->]; auto.
Qed.

Lemma traceSymbolSource_sources (symbol : SymbolName) (filePath : string)
      (visited : JS.StrSet) (x : FileName) :
  In x (traceSymbolSource g filePath symbol visited) ->
  x = filePath \/ In x (importKeys g).
Proof.
  apply (traceSymbolSourceFuel_sources symbol (S (length g)) filePath visited).
  apply traceSymbolSource_total.
Qed.

Lemma unexpanded_incl (v w : JS.StrSet) :
  incl v w -> unexpanded g w <= unexpanded g v.
Proof.
  intros Hincl. unfold unexpanded. apply filter_length_mono.
  intros x _. rewrite !negb_true_iff, !JSFacts.has_false. auto.
Qed.

Lemma unexpanded_add_lt (v : JS.StrSet) (f : FileName) :
  JS.has v f = false -> In f (importKeys g) ->
  unexpanded g (JS.add v f) < unexpanded g v.
Proof.
  intros Hv Hin. unfold unexpanded.
  apply filter_length_strict with (a := f).
  - intros x _. apply not_has_add.
  - exact Hin.
  - now rewrite Hv.
  - apply negb_false_iff, JSFacts.has_true, JSFacts.in_add. now right.
Qed.

(** The shared [visited] set only grows. *)
Lemma findAllFinalDependencies_visited (fuel : nat) :
  forall filePath finalDeps visited finalDeps' visited',
  findAllFinalDependencies fuel g filePath (finalDeps, visited)
  = Some (finalDeps', visited') ->
  incl visited visited'.
Proof.
  induction fuel as [| fuel IH];
    intros filePath finalDeps visited finalDeps' visited' H; [discriminate |].
  simpl in H. destruct (JS.has visited filePath).
  { injection H as <- <-. apply incl_refl. }
  destruct (JS.get g filePath) as [info |].
  2: { injection H as <- <-. apply JSFacts.add_incl. }
  set (P := fun c : Closure => incl visited (snd c)).
  assert (Hstep : forall importPath symbols symbol source fd v c',
             In (importPath, symbols) (import info) -> In symbol symbols ->
             In source (traceSymbolSource g importPath symbol []) ->
             P (fd, v) ->
             findAllFinalDependencies fuel g source (JS.add fd source, v)
             = Some c' -> P c').
  { intros importPath symbols symbol source fd v [fd' v'] _ _ _ Hc Hrec.
    unfold P in Hc |- *. simpl in Hc |- *.
    eapply incl_tran; [exact Hc | eapply IH; exact Hrec]. }
  assert (Hinit : P (finalDeps, JS.add visited filePath)).
  { apply JSFacts.add_incl. }
  apply (expandEdges_invariant g P _ _ Hstep _ _ Hinit H).
Qed.

Lemma expandEdges_total (P : Closure -> Prop)
      (recur : FileName -> Closure -> option Closure)
      (entries : list (FileName * JS.StrSet)) :
  (forall importPath symbols symbol source finalDeps visited,
      In (importPath, symbols) entries -> In symbol symbols ->
      In source (traceSymbolSource g importPath symbol []) ->
      P (finalDeps, visited) ->
      exists c', recur source (JS.add finalDeps source, visited) = Some c' /\ P c') ->
  forall c, P c -> exists c', expandEdges recur g entries c = Some c' /\ P c'.
Proof.
  intros Hstep. unfold expandEdges.
  apply forEachO_total. intros [importPath symbols] c1 Hedge.
  apply forEachO_total. intros symbol c2 Hsym.
  apply forEachO_total. intros source [finalDeps visited] Hsource Hc.
  eapply Hstep; eassumption.
Qed.

(** Enough fuel for a file that is an import key: one frame more than the
    import keys not expanded yet. *)
Lemma findAllFinalDependencies_total_key (fuel : nat) :
  forall filePath finalDeps visited,
  In filePath (importKeys g) ->
  unexpanded g visited < fuel ->
  exists c', findAllFinalDependencies fuel g filePath (finalDeps, visited) = Some c'.
Proof.
  induction fuel as [| fuel IH]; intros filePath finalDeps visited Hkey Hfuel; [lia |].
  simpl. destruct (JS.has visited filePath) eqn:Hv; [eauto |].
  destruct (JS.get g filePath) as [info |] eqn:Hg; [| eauto].
  pose proof (unexpanded_add_lt visited filePath Hv Hkey) as Hlt.
  set (P := fun c : Closure => incl (JS.add visited filePath) (snd c)).
  destruct (expandEdges_total P (findAllFinalDependencies fuel g) (import info))
    with (c := (finalDeps, JS.add visited filePath)) as (c' & Hc' & _).
  - intros importPath symbols symbol source fd v Hedge Hsym Hsource Hc.
    unfold P in Hc. simpl in Hc.
    assert (Hsk : In source (importKeys g)).
    { destruct (traceSymbolSource_sources _ _ _ _ Hsource) as [-> | Hk];
        [| exact Hk].
      eapply in_importKeys; eassumption. }
    destruct (IH source (JS.add fd source) v Hsk) as [[fd' v'] Hrec].
    { pose proof (unexpanded_incl _ _ Hc). lia. }
    exists (fd', v'). split; [exact Hrec |].
    unfold P. simpl.
    eapply incl_tran; [exact Hc |].
    eapply findAllFinalDependencies_visited. exact Hrec.
  - unfold P. simpl. apply incl_refl.
  - eauto.
Qed.

(** Enough fuel for any file: two frames more than the import keys not
    expanded yet. *)
Lemma findAllFinalDependencies_total (fuel : nat) (filePath : string)
      (finalDeps visited : JS.StrSet) :
  unexpanded g visited + 1 < fuel ->
  exists c', findAllFinalDependencies fuel g filePath (finalDeps, visited) = Some c'.
Proof.
  intros Hfuel. destruct fuel as [| fuel]; [lia |].
  simpl. destruct (JS.has visited filePath) eqn:Hv; [eauto |].
  destruct (JS.get g filePath) as [info |] eqn:Hg; [| eauto].
  set (P := fun c : Closure => incl (JS.add visited filePath) (snd c)).
  destruct (expandEdges_total P (findAllFinalDependencies fuel g) (import info))
    with (c := (finalDeps, JS.add visited filePath)) as (c' & Hc' & _).
  - intros importPath symbols symbol source fd v Hedge Hsym Hsource Hc.
    unfold P in Hc. simpl in Hc.
    assert (Hsk : In source (importKeys g)).
    { destruct (traceSymbolSource_sources _ _ _ _ Hsource) as [-> | Hk];
        [| exact Hk].
      eapply in_importKeys; eassumption. }
    destruct (findAllFinalDependencies_total_key fuel source (JS.add fd source) v Hsk)
      as [[fd' v'] Hrec].
    { pose proof (unexpanded_incl _ _ Hc).
      pose proof (unexpanded_incl _ _ (JSFacts.add_incl visited filePath)). lia. }
    exists (fd', v'). split; [exact Hrec |].
    unfold P. simpl.
    eapply incl_tran; [exact Hc |].
    eapply findAllFinalDependencies_visited. exact Hrec.
  - unfold P. simpl. apply incl_refl.
  - eauto.
Qed.

(** From a fresh closure state, [length (importKeys g) + 2] frames are
    enough, whatever the graph and the file. *)
Lemma findAllFinalDependencies_returns (filePath : string) :
  exists finalDeps visited,
    findAllFinalDependencies (S (S (length (importKeys g)))) g filePath ([], [])
    = Some (finalDeps, visited).
Proof.
  destruct (findAllFinalDependencies_total (S (S (length (importKeys g))))
                                           filePath [] []) as [[fd v] H].
  - assert (unexpanded g [] <= length (importKeys g))
      by (unfold unexpanded; apply List.filter_length_le).
    lia.
  - eauto.
Qed.

End ClosureTermination.

(* ================================================================== *)
(** * Query engine *)

Section QueryFacts.
Context {host : Host} (config : Config).

(** What [query] returns once the file is resolved and analyzed: the
    final dependencies, then their styles. *)
Lemma query_result (fuel : nat) (absFilePath actualPath : string)
      (st st' : Service) (res : list string) :
  query config fuel absFilePath st = Some (res, st') ->
  whenTruthy (resolveFilePath absFilePath) = Some actualPath ->
  exists finalDeps visited,
    findAllFinalDependencies fuel (depsGraph st') actualPath ([], [])
    = Some (finalDeps, visited) /\
    res = JS.addAll finalDeps (collectStyles (depsGraph st') finalDeps).
Proof.
  intros H Hact. unfold query in H. rewrite Hact in H.
  unfold bind, getState, ret, outOfFuel in H.
  assert (Hrest : forall st1,
             match findAllFinalDependencies fuel (depsGraph st1) actualPath ([], [])
             with
             | Some (finalDeps, _) =>
                 fun st2 : Service =>
                   Some (JS.addAll finalDeps
                                   (collectStyles (depsGraph st1) finalDeps), st2)
             | None => fun _ : Service => None
             end st1 = Some (res, st') ->
             exists finalDeps visited,
               findAllFinalDependencies fuel (depsGraph st') actualPath ([], [])
               = Some (finalDeps, visited) /\
               res = JS.addAll finalDeps (collectStyles (depsGraph st') finalDeps)).
  { intros st1 H1.
    destruct (findAllFinalDependencies fuel (depsGraph st1) actualPath ([], []))
      as [[finalDeps visited] |] eqn:E; [| discriminate].
    injection H1 as <- <-. eauto. }
  destruct (negb (JS.mhas (depsGraph st) actualPath)).
  - destruct (analyzeFileRecursive config fuel actualPath [] st)
      as [[v1 st1] |]; [| discriminate].
    apply (Hrest st1 H).
  - apply (Hrest st H).
Qed.


(** C7, as the code has it: the result of [query(f)] is the set of final
    dependencies, each a traced origin, together with the [styleImports] of
    exactly those of them that have a Result.  A style import of [f] itself
    is in the result only if [f] is a final dependency, or that style
    identity is a final dependency, or another final dependency imports the
    same style. *)
Theorem query_adds_styles_of_final_dependencies (fuel : nat)
    (absFilePath actualPath : string) (st st' : Service) (res : list string) :
  query config fuel absFilePath st = Some (res, st') ->
  whenTruthy (resolveFilePath absFilePath) = Some actualPath ->
  exists finalDeps visited,
    findAllFinalDependencies fuel (depsGraph st') actualPath ([], [])
    = Some (finalDeps, visited) /\
    (forall x, In x finalDeps -> tracedOrigin (depsGraph st') x) /\
    (forall x, In x res <->
               In x finalDeps \/
               exists dep info, In dep finalDeps /\
                                JS.get (depsGraph st') dep = Some info /\
                                In x (styleImports info)) /\
    (forall info s,
        JS.get (depsGraph st') actualPath = Some info ->
        In s (styleImports info) -> In s res ->
        In actualPath finalDeps \/ In s finalDeps \/
        exists dep info', dep <> actualPath /\ In dep finalDeps /\
                          JS.get (depsGraph st') dep = Some info' /\
                          In s (styleImports info')).
Proof.
  intros H Hact.
  destruct (query_result _ _ _ _ _ _ H Hact) as (finalDeps & visited & Hfind & ->).
  exists finalDeps, visited.
  assert (Hres : forall x,
             In x (JS.addAll finalDeps (collectStyles (depsGraph st') finalDeps)) <->
             In x finalDeps \/
             exists dep info, In dep finalDeps /\
                              JS.get (depsGraph st') dep = Some info /\
                              In x (styleImports info)).
  { intros x. rewrite JSFacts.in_addAll, in_collectStyles. reflexivity. }
  repeat split; try apply Hres; try assumption.
  - intros x Hx.
    destruct (findAllFinalDependencies_origins _ _ _ _ _ _ _ Hfind _ Hx)
      as [[] | Ho]. exact Ho.
  - intros info s Hinfo Hs Hin. apply Hres in Hin.
    destruct Hin as [Hin | (dep & info' & Hdep & Hg & Hs')]; [auto |].
    destruct (string_dec dep actualPath) as [-> | Hne]; [auto |].
    right. right. exists dep, info'. auto.
Qed.

End QueryFacts.

(* ================================================================== *)
(** * Side-effect imports *)

Lemma length_set_present {V} (m : JS.StrMap V) (k : string) (v0 v : V) :
  JS.get m k = Some v0 -> length (JS.set m k v) = length m.
Proof.
  induction m as [| [k' v'] m IH]; simpl; [discriminate |].
  destruct (String.eqb k k'); simpl; [reflexivity |].
  intros H. now rewrite (IH H).
Qed.

Lemma traceImports_skip (recur : FileName -> option JS.StrSet) (symbol : string)
      (t : FileName) (pre post : list (FileName * JS.StrSet)) :
  forall found sources,
  traceImports recur symbol (pre ++ (t, []) :: post) found sources
  = traceImports recur symbol (pre ++ post) found sources.
Proof.
  induction pre as [| [p syms] pre IH]; intros found sources; simpl.
  - reflexivity.
  - destruct (JS.has syms symbol); [| apply IH].
    destruct (recur p); [apply IH | reflexivity].
Qed.

Lemma traceImports_same (recur1 recur2 : FileName -> option JS.StrSet)
      (symbol : string) (entries : list (FileName * JS.StrSet)) :
  (forall p, recur1 p = recur2 p) ->
  forall found sources,
  traceImports recur1 symbol entries found sources
  = traceImports recur2 symbol entries found sources.
Proof.
  intros Hsame. induction entries as [| [p syms] entries IH]; intros found sources;
    simpl; [reflexivity |].
  destruct (JS.has syms symbol); [| apply IH].
  rewrite Hsame. destruct (recur2 p); [apply IH | reflexivity].
Qed.

Lemma forEachO_same {A S} (body1 body2 : A -> S -> option S) (xs : list A) :
  (forall x s, body1 x s = body2 x s) ->
  forall s, forEachO body1 xs s = forEachO body2 xs s.
Proof.
  intros Hsame. induction xs as [| x xs IH]; intros s; simpl; [reflexivity |].
  rewrite Hsame. destruct (body2 x s); [apply IH | reflexivity].
Qed.

Section SideEffectEdge.
Variable g : FileAnalysisResult.
Variable file t : FileName.
Variable info : Result.
Variable pre post : list (FileName * JS.StrSet).
Hypothesis file_known : JS.get g file = Some info.
Hypothesis edge_empty : import info = pre ++ (t, []) :: post.

(** The graph with the edge to [t] taken out of the ledger of [file]. *)
Local Abbreviation without := (JS.set g file (with_import info (pre ++ post))).

Lemma without_get (p : FileName) :
  JS.get without p
  = if String.eqb p file then Some (with_import info (pre ++ post)) else JS.get g p.
Proof. apply JSFacts.get_set. Qed.

Lemma without_traceFuel (symbol : SymbolName) (fuel : nat) :
  forall filePath visited,
  traceSymbolSourceFuel fuel without filePath symbol visited
  = traceSymbolSourceFuel fuel g filePath symbol visited.
Proof.
  induction fuel as [| fuel IH]; intros filePath visited; [reflexivity |].
  rewrite !traceSymbolSourceFuel_S, without_get.
  destruct (JS.has visited filePath); [reflexivity |].
  destruct (String.eqb filePath file) eqn:E.
  - apply String.eqb_eq in E. subst filePath. rewrite file_known.
    change (isExported (with_import info (pre ++ post)) symbol)
      with (isExported info symbol).
    destruct (negb (isExported info symbol)); [reflexivity |].
    change (import (with_import info (pre ++ post))) with (pre ++ post).
    rewrite edge_empty, traceImports_skip.
    rewrite (traceImports_same _
               (fun importPath =>
                  traceSymbolSourceFuel fuel g importPath symbol (JS.add visited file))
               symbol (pre ++ post) (fun p => IH p (JS.add visited file))).
    reflexivity.
  - destruct (JS.get g filePath) as [other |]; [| reflexivity].
    destruct (negb (isExported other symbol)); [reflexivity |].
    rewrite (traceImports_same _
               (fun importPath =>
                  traceSymbolSourceFuel fuel g importPath symbol
                                        (JS.add visited filePath))
               symbol (import other) (fun p => IH p (JS.add visited filePath))).
    reflexivity.
Qed.

Lemma without_trace (symbol : SymbolName) (filePath : string) (visited : JS.StrSet) :
  traceSymbolSource without filePath symbol visited
  = traceSymbolSource g filePath symbol visited.
Proof.
  unfold traceSymbolSource.
  rewrite (length_set_present g file info _ file_known), without_traceFuel.
  reflexivity.
Qed.

Lemma without_expandEdges (recur1 recur2 : FileName -> Closure -> option Closure)
      (entries : list (FileName * JS.StrSet)) :
  (forall source c, recur1 source c = recur2 source c) ->
  forall c, expandEdges recur1 without entries c = expandEdges recur2 g entries c.
Proof.
  intros Hsame. unfold expandEdges.
  apply forEachO_same. intros [importPath symbols] c1.
  apply forEachO_same. intros symbol c2.
  rewrite without_trace.
  apply forEachO_same. intros source [fd v]. apply Hsame.
Qed.

Lemma expandEdges_skip (recur : FileName -> Closure -> option Closure) (c : Closure) :
  expandEdges recur g (pre ++ (t, []) :: post) c = expandEdges recur g (pre ++ post) c.
Proof.
  unfold expandEdges. rewrite !forEachO_app.
  match goal with
  | |- context [forEachO ?body pre c] => destruct (forEachO body pre c)
  end; reflexivity.
Qed.

Lemma without_findAll (fuel : nat) :
  forall start c,
  findAllFinalDependencies fuel without start c
  = findAllFinalDependencies fuel g start c.
Proof.
  induction fuel as [| fuel IH]; intros start [finalDeps visited]; [reflexivity |].
  simpl. rewrite without_get.
  destruct (JS.has visited start); [reflexivity |].
  destruct (String.eqb start file) eqn:E.
  - apply String.eqb_eq in E. subst start. rewrite file_known.
    change (import (with_import info (pre ++ post))) with (pre ++ post).
    rewrite edge_empty, expandEdges_skip.
    apply without_expandEdges. exact IH.
  - destruct (JS.get g start) as [other |]; [| reflexivity].
    apply without_expandEdges. exact IH.
Qed.

Lemma without_collectStyles (finalDeps : JS.StrSet) :
  collectStyles without finalDeps = collectStyles g finalDeps.
Proof.
  unfold collectStyles. generalize (@nil string).
  induction finalDeps as [| d ds IH]; intros acc; simpl; [reflexivity |].
  rewrite without_get. destruct (String.eqb d file) eqn:E.
  - apply String.eqb_eq in E. subst d. rewrite file_known. apply IH.
  - apply IH.
Qed.

Lemma without_mhas (p : FileName) : JS.mhas without p = JS.mhas g p.
Proof.
  unfold JS.mhas. rewrite without_get. destruct (String.eqb p file) eqn:E;
    [| reflexivity].
  apply String.eqb_eq in E. subst p. now rewrite file_known.
Qed.

End SideEffectEdge.

Section SideEffectImport.
Context {host : Host} (config : Config).
Variable getFileExports : FileName -> M (option Result).

Lemma query_of_known (fuel : nat) (absFilePath actualPath : string) (st : Service) :
  whenTruthy (resolveFilePath absFilePath) = Some actualPath ->
  JS.mhas (depsGraph st) actualPath = true ->
  option_map fst (query config fuel absFilePath st)
  = option_map
      (fun c : Closure => JS.addAll (fst c) (collectStyles (depsGraph st) (fst c)))
      (findAllFinalDependencies fuel (depsGraph st) actualPath ([], [])).
Proof.
  intros Hact Hhas. unfold query. rewrite Hact.
  unfold bind, getState, ret, outOfFuel. rewrite Hhas. simpl.
  destruct (findAllFinalDependencies fuel (depsGraph st) actualPath ([], []))
    as [[fd v] |]; reflexivity.
Qed.


End SideEffectImport.


(** C7 fails as stated: [f.ts] and its dependency [D.ts] both import
    [shared.css]; [f.ts] is not among the traced origins, and its own style
    import is in [query(f.ts)] all the same. *)
Lemma own_style_included_when_shared :
  option_map fst (@query Demo.sharedStyle Demo.noAliases 3 "/p/f.ts" newService)
  = Some ["/p/D.ts"; "/p/shared.css"] /\
  option_map styleImports (JS.get (depsGraph Demo.sharedStyleQueried) "/p/f.ts")
  = Some ["/p/shared.css"] /\
  option_map fst (findAllFinalDependencies 3 (depsGraph Demo.sharedStyleQueried)
                                           "/p/f.ts" ([], []))
  = Some ["/p/D.ts"] /\
  JS.has ["/p/D.ts"] "/p/f.ts" = false.
Proof. repeat split; vm_compute; reflexivity. Qed.

(* ================================================================== *)
(** * The theorems at work on the scenarios *)

Lemma namespace_import_records_surface_witness :
  exists (result' : Result) (names : JS.StrSet),
    @handleImportDeclaration Demo.namespaceImport Demo.noAliases
      (@getFileExports Demo.namespaceImport Demo.noAliases 1)
      (StringLiteral "./X")
      (Some (mkImportClause None (Some (NamespaceImport "ns"))))
      emptyResult "/p/A.ts" newService
    = Some (result',
            mkService [] ["/p/X.ts"] [("/p/X.ts", mkResult [] None ["foo"] [])]
                      ["/p/X.ts"]) /\
    (forall s, In s names <->
               exists t, Some (mkResult [] None ["foo"] []) = Some t /\
                         (In s (commonExport t) \/
                          (s = "default" /\ truthy (defaultExport t) = true))) /\
    (names = [] -> result' = emptyResult) /\
    (names <> [] ->
     JS.get (import result')
            (@resolveImportPath Demo.namespaceImport Demo.noAliases "/p/A.ts" "./X")
     = Some (JS.addAll
               (importedFrom emptyResult
                  (@resolveImportPath Demo.namespaceImport Demo.noAliases
                                      "/p/A.ts" "./X"))
               names)).
Proof.
  apply (@namespace_import_records_surface Demo.namespaceImport Demo.noAliases
           (@getFileExports Demo.namespaceImport Demo.noAliases 1)
           "./X" "ns" "/p/A.ts" emptyResult newService).
  - vm_compute. reflexivity.
  - vm_compute. reflexivity.
  - vm_compute. reflexivity.
Defined.


(** On that graph the closure of [f.ts] holds [D.ts], which it binds a
    symbol from, and not [t.ts], which it imports for its side effect. *)
Example side_effect_target_not_in_closure :
  option_map fst (findAllFinalDependencies 3 Cases.sideEffectGraph "/p/f.ts" ([], []))
  = Some ["/p/D.ts"].
Proof. vm_compute. reflexivity. Qed.


Lemma query_adds_styles_of_final_dependencies_witness :
  exists finalDeps visited,
    findAllFinalDependencies 3 (depsGraph Demo.sharedStyleQueried) "/p/f.ts" ([], [])
    = Some (finalDeps, visited) /\
    (forall x, In x finalDeps -> tracedOrigin (depsGraph Demo.sharedStyleQueried) x) /\
    (forall x, In x ["/p/D.ts"; "/p/shared.css"] <->
               In x finalDeps \/
               exists dep info, In dep finalDeps /\
                                JS.get (depsGraph Demo.sharedStyleQueried) dep
                                = Some info /\
                                In x (styleImports info)) /\
    (forall info s,
        JS.get (depsGraph Demo.sharedStyleQueried) "/p/f.ts" = Some info ->
        In s (styleImports info) -> In s ["/p/D.ts"; "/p/shared.css"] ->
        In "/p/f.ts" finalDeps \/ In s finalDeps \/
        exists dep info', dep <> "/p/f.ts" /\ In dep finalDeps /\
                          JS.get (depsGraph Demo.sharedStyleQueried) dep = Some info' /\
                          In s (styleImports info')).
Proof.
  apply (@query_adds_styles_of_final_dependencies Demo.sharedStyle Demo.noAliases 3
           "/p/f.ts" "/p/f.ts" newService Demo.sharedStyleQueried
           ["/p/D.ts"; "/p/shared.css"]).
  - vm_compute. reflexivity.
  - vm_compute. reflexivity.
Defined.

(** The scenarios of the specification's testable properties. *)
Example barrel_end_to_end :
  option_map fst (@query Demo.barrel Demo.noAliases 3 "/p/index.ts" newService)
  = Some ["/p/Foo.tsx"; "/p/foo.css"].
Proof. vm_compute. reflexivity. Qed.

Example side_effect_only_query :
  option_map (fun out => (fst out, JS.get (depsGraph (snd out)) "/p/f.ts"))
             (@query Demo.sideEffectOnly Demo.noAliases 3 "/p/f.ts" newService)
  = Some ([], Some (mkResult [("/p/t.ts", [])] None [] [])).
Proof. vm_compute. reflexivity. Qed.

Example cycle_traces_terminate :
  traceSymbolSource (depsGraph Demo.cycleQueried) "/p/B.ts" "T" [] = ["/p/B.ts"] /\
  traceSymbolSource (depsGraph Demo.cycleQueried) "/p/f.ts" "S" [] = ["/p/f.ts"].
Proof. split; vm_compute; reflexivity. Qed.

(** The path model on the paths the scenarios use. *)
Example posix_paths :
  Posix.dirname "/p/A.ts" = "/p" /\
  Posix.resolve "/p" "./missing" = "/p/missing" /\
  Posix.resolve "/p/src/a" "../b/c" = "/p/src/b/c" /\
  Posix.join "/d" "index.mjs" = "/d/index.mjs" /\
  Posix.extname "./shared.css" = ".css" /\
  Posix.extname "./X" = "" /\
  Posix.extname "/p/.config" = "".
Proof. repeat split; reflexivity. Qed.

(* ================================================================== *)
(** * More on the module resolver *)

Section ResolverMore.
Context {host : Host} (config : Config).

Lemma resolveFilePath_found_exists (filePath q : string) :
  resolveFilePath filePath = Some q -> existsSync q = true.
Proof.
  unfold resolveFilePath.
  destruct (existsSync filePath && isFile filePath) eqn:Hlit.
  - intros [= <-]. apply andb_prop in Hlit. tauto.
  - rewrite probeAppended_find, probeIndex_find.
    destruct (find existsSync (appended filePath extensions)) as [q1 |] eqn:E1.
    + intros [= <-]. apply find_some in E1. tauto.
    + intros E2. apply find_some in E2. tauto.
Qed.

(** [resolveFilePath] returns the path itself exactly when it exists and is
    a regular file; otherwise it returns a candidate that exists, before
    which no candidate exists; and it returns [null] exactly when the path
    is no regular file and no candidate exists. *)
Theorem resolveFilePath_sound_complete (filePath : string) :
  match resolveFilePath filePath with
  | Some q =>
      (existsSync filePath = true /\ isFile filePath = true /\ q = filePath) \/
      (existsSync filePath && isFile filePath = false /\
       existsSync q = true /\
       exists earlier later,
         appended filePath extensions ++ indexFiles filePath extensions
         = earlier ++ q :: later /\
         forall c, In c earlier -> existsSync c = false)
  | None =>
      existsSync filePath && isFile filePath = false /\
      forall q, In q (appended filePath extensions ++ indexFiles filePath extensions) ->
                existsSync q = false
  end.
Proof.
  assert (Hfirst : forall (l : list string) q,
             find existsSync l = Some q ->
             existsSync q = true /\
             exists earlier later,
               l = earlier ++ q :: later /\
               forall c, In c earlier -> existsSync c = false).
  { induction l as [| a l IH]; intros q; simpl; [discriminate |].
    destruct (existsSync a) eqn:Ea.
    - intros [= <-]. split; [exact Ea |]. exists [], l. split; [reflexivity |].
      intros c [].
    - intros H. destruct (IH q H) as (He & earlier & later & -> & Hnone).
      split; [exact He |]. exists (a :: earlier), later. split; [reflexivity |].
      intros c [<- | Hc]; auto. }
  unfold resolveFilePath.
  destruct (existsSync filePath && isFile filePath) eqn:Hlit.
  - apply andb_prop in Hlit. left. tauto.
  - rewrite probeAppended_find, probeIndex_find.
    pose proof (find_app existsSync (appended filePath extensions)
                         (indexFiles filePath extensions)) as Happ.
    destruct (find existsSync (appended filePath extensions)) as [q |] eqn:E1.
    + right. split; [reflexivity |]. apply Hfirst. exact Happ.
    + destruct (find existsSync (indexFiles filePath extensions)) as [q |] eqn:E2.
      * right. split; [reflexivity |]. apply Hfirst. exact Happ.
      * split; [reflexivity |]. intros q Hq.
        apply (find_none _ _ Happ q Hq).
Qed.

(** A relative specifier resolves to a path that exists, or else to the
    bare [path.resolve] of the specifier against the importing file's
    directory, for which the resolver found nothing. *)
Theorem resolveImportPath_relative (fromFile importPath : string) :
  isRelativeImportPath importPath = true ->
  existsSync (resolveImportPath config fromFile importPath) = true \/
  (resolveImportPath config fromFile importPath
   = resolve (dirname fromFile) importPath /\
   whenTruthy (resolveFilePath (resolve (dirname fromFile) importPath)) = None).
Proof.
  intros Hrel. unfold resolveImportPath. rewrite Hrel.
  set (resolved := resolve (dirname fromFile) importPath).
  pose proof (resolveFilePath_found_exists resolved) as Hs.
  unfold orElse, whenTruthy.
  destruct (resolveFilePath resolved) as [q |]; simpl.
  - destruct (negb (String.eqb q "")); [left; now apply Hs | right; auto].
  - right. auto.
Qed.

(** A relative style import always resolves: to the file, to the file with
    a style extension appended when the specifier has none, or else to the
    computed path itself.  A style specifier that is not relative resolves
    only to the alias target, and only when that is an existing regular
    file. *)
Theorem resolveStylePath_cases (fromFile importPath : string) :
  (isRelativeImportPath importPath = true ->
   exists p, resolveStylePath config fromFile importPath = Some p /\
             (p = resolve (dirname fromFile) importPath \/
              (existsSync p = true /\ isFile p = true /\
               exists ext, In ext styleExtensions /\
                           p = (resolve (dirname fromFile) importPath ++ ext)%string)))
  /\
  (isRelativeImportPath importPath = false ->
   forall p, resolveStylePath config fromFile importPath = Some p ->
             JS.get (PathsMapping config) importPath = Some p /\
             existsSync p = true /\ isFile p = true).
Proof.
  unfold resolveStylePath. split; intros Hrel; rewrite Hrel.
  - set (resolved := resolve (dirname fromFile) importPath).
    destruct (existsSync resolved && isFile resolved); [eauto |].
    destruct (String.eqb (extname resolved) ""); [| eauto].
    assert (Hprobe : forall exts p,
               probeStyle resolved exts = Some p ->
               existsSync p = true /\ isFile p = true /\
               exists ext, In ext exts /\ p = (resolved ++ ext)%string).
    { induction exts as [| ext exts IH]; intros p; simpl; [discriminate |].
      destruct (existsSync (resolved ++ ext) && isFile (resolved ++ ext)) eqn:E.
      - intros [= <-]. apply andb_prop in E. destruct E. eauto 6.
      - intros H. destruct (IH p H) as (He & Hf & ext' & Hin & ->). eauto 7. }
    destruct (probeStyle resolved styleExtensions) as [p |] eqn:E; [| eauto].
    exists p. split; [reflexivity |]. right. apply Hprobe. exact E.
  - intros p. destruct (JS.get (PathsMapping config) importPath) as [base |];
      simpl; [| discriminate].
    destruct (negb (String.eqb base "")); [| discriminate].
    destruct (existsSync base && isFile base) eqn:E; [| discriminate].
    intros [= <-]. apply andb_prop in E. destruct E. auto.
Qed.

End ResolverMore.

Lemma resolveImportPath_relative_witness :
  @existsSync Demo.namespaceImport
     (@resolveImportPath Demo.namespaceImport Demo.noAliases "/p/A.ts" "./X") = true \/
  (@resolveImportPath Demo.namespaceImport Demo.noAliases "/p/A.ts" "./X"
   = @resolve Demo.namespaceImport (@dirname Demo.namespaceImport "/p/A.ts") "./X" /\
   whenTruthy (@resolveFilePath Demo.namespaceImport
                 (@resolve Demo.namespaceImport
                    (@dirname Demo.namespaceImport "/p/A.ts") "./X")) = None).
Proof.
  apply (@resolveImportPath_relative Demo.namespaceImport Demo.noAliases
           "/p/A.ts" "./X").
  vm_compute. reflexivity.
Defined.

Section ConstructionFacts.
Context {host : Host}.

Lemma get_initPathsMapping_from (projectBaseDir : string)
      (pathsMapping : list (string * string)) :
  NoDup (map fst pathsMapping) ->
  forall (acc : JS.StrMap string) (alias : string),
  JS.get (fold_left
            (fun ret '(alias, relPath) =>
               JS.set ret alias (resolve projectBaseDir relPath))
            pathsMapping acc) alias
  = match JS.get pathsMapping alias with
    | Some relPath => Some (resolve projectBaseDir relPath)
    | None => JS.get acc alias
    end.
Proof.
  induction pathsMapping as [| [a rel] rest IH]; intros Hnd acc alias; simpl.
  - reflexivity.
  - inversion Hnd as [| ? ? Hnotin Hnd']. subst.
    rewrite (IH Hnd'), JSFacts.get_set.
    destruct (String.eqb alias a) eqn:E.
    + apply String.eqb_eq in E. subst a.
      destruct (JS.get rest alias) as [rel' |] eqn:Hr; [| reflexivity].
      exfalso. apply Hnotin. eapply JSFacts.get_some_key. exact Hr.
    + reflexivity.
Qed.

(** [initPathsMapping] maps every alias of the record to [path.resolve] of
    its target against the project root, and nothing else; so every
    configured alias is a local specifier, whatever it looks like. *)
Theorem initPathsMapping_lookup (projectBaseDir : string)
    (pathsMapping : list (string * string)) (dirs : list string) (alias : string) :
  NoDup (map fst pathsMapping) ->
  JS.get (initPathsMapping projectBaseDir pathsMapping) alias
  = option_map (resolve projectBaseDir) (JS.get pathsMapping alias) /\
  (JS.mhas pathsMapping alias = true ->
   isLocalImportPath (mkConfig (initPathsMapping projectBaseDir pathsMapping) dirs)
                     alias = true).
Proof.
  intros Hnd.
  assert (Hget : JS.get (initPathsMapping projectBaseDir pathsMapping) alias
                 = option_map (resolve projectBaseDir) (JS.get pathsMapping alias)).
  { unfold initPathsMapping. rewrite (get_initPathsMapping_from _ _ Hnd).
    destruct (JS.get pathsMapping alias); reflexivity. }
  split; [exact Hget |].
  unfold isLocalImportPath, JS.mhas. simpl. rewrite Hget.
  destruct (JS.get pathsMapping alias); [| discriminate].
  intros _. destruct (isRelativeImportPath alias); reflexivity.
Qed.

End ConstructionFacts.

Lemma initPathsMapping_lookup_witness :
  JS.get (@initPathsMapping Demo.barrel "/p" [("@lib", "src/lib")]) "@lib"
  = option_map (@resolve Demo.barrel "/p") (JS.get [("@lib", "src/lib")] "@lib") /\
  (JS.mhas [("@lib", "src/lib")] "@lib" = true ->
   isLocalImportPath
     (mkConfig (@initPathsMapping Demo.barrel "/p" [("@lib", "src/lib")]) [])
     "@lib" = true).
Proof.
  apply (@initPathsMapping_lookup Demo.barrel "/p" [("@lib", "src/lib")] [] "@lib").
  repeat constructor. simpl. tauto.
Defined.

(* ================================================================== *)
(** * More on the declaration extractor *)

Lemma in_fold_add_kept {A} (f : A -> string) (l : list A) (c : JS.StrSet) (s : string) :
  In s c -> In s (fold_left (fun c e => JS.add c (f e)) l c).
Proof.
  revert c. induction l as [| a l IH]; intros c Hs; simpl; [exact Hs |].
  apply IH. apply JSFacts.in_add. now left.
Qed.

Lemma in_visitBindingElement (x : string) (b : BindingName) :
  forall names, In x (visitBindingElement b names) <-> In x names \/ leafOf x b.
Proof.
  assert (Hloop : forall (isObject : bool) elements,
             Forall (fun o => match o with
                              | Some e => forall names,
                                  In x (visitBindingElement e names) <->
                                  In x names \/ leafOf x e
                              | None => True
                              end) elements ->
             forall names,
             In x ((fix each (es : list (option BindingName)) (names : list string) :=
                      match es with
                      | [] => names
                      | Some e :: es' => each es' (visitBindingElement e names)
                      | None :: es' => each es' names
                      end) elements names) <->
             In x names \/ exists e, In (Some e) elements /\ leafOf x e).
  { intros _ elements Hall. induction Hall as [| o es Ho _ IH]; intros names.
    - split; [auto | intros [H | (e & [] & _)]; exact H].
    - destruct o as [e |].
      + rewrite IH, Ho. split.
        * intros [[H | H] | (e' & Hin & Hl)]; [auto | |].
          -- right. exists e. simpl. auto.
          -- right. exists e'. simpl. auto.
        * intros [H | (e' & [Heq | Hin] & Hl)]; [auto | |].
          -- injection Heq as <-. auto.
          -- right. exists e'. auto.
      + rewrite IH. split.
        * intros [H | (e' & Hin & Hl)]; [auto |]. right. exists e'. simpl. auto.
        * intros [H | (e' & [Heq | Hin] & Hl)]; [auto | discriminate |].
          right. exists e'. auto. }
  induction b as [text | elements Hall | elements Hall] using BindingName_induction;
    intros names.
  - simpl. rewrite in_app_iff. simpl. split.
    + intros [H | [<- | []]]; [auto | right; constructor].
    + intros [H | H]; [auto |]. inversion H. auto.
  - simpl. rewrite (Hloop true elements Hall). split.
    + intros [H | (e & Hin & Hl)]; [auto |]. right. econstructor; eassumption.
    + intros [H | H]; [auto |]. inversion H. eauto.
  - simpl. rewrite (Hloop false elements Hall). split.
    + intros [H | (e & Hin & Hl)]; [auto |]. right. econstructor; eassumption.
    + intros [H | H]; [auto |]. inversion H. eauto.
Qed.

Lemma in_extractBindingNames (patternElements : list (option BindingName))
    (x : string) :
  In x (extractBindingNames patternElements) <->
  exists e, In (Some e) patternElements /\ leafOf x e.
Proof.
  unfold extractBindingNames.
  assert (Hgen : forall names,
             In x (fold_left
                     (fun names element =>
                        match element with
                        | Some e => visitBindingElement e names
                        | None => names
                        end) patternElements names) <->
             In x names \/ exists e, In (Some e) patternElements /\ leafOf x e).
  { induction patternElements as [| o es IH]; intros names; simpl.
    - split; [auto | intros [H | (e & [] & _)]; exact H].
    - rewrite IH. destruct o as [e |].
      + rewrite in_visitBindingElement. split.
        * intros [[H | H] | (e' & Hin & Hl)]; [auto | |].
          -- right. exists e. auto.
          -- right. exists e'. auto.
        * intros [H | (e' & [Heq | Hin] & Hl)]; [auto | |].
          -- injection Heq as <-. auto.
          -- right. exists e'. auto.
      + split.
        * intros [H | (e' & Hin & Hl)]; [auto |]. right. exists e'. auto.
        * intros [H | (e' & [Heq | Hin] & Hl)]; [auto | discriminate |].
          right. exists e'. auto. }
  rewrite Hgen. split; [intros [[] | H]; exact H | auto].
Qed.

(** [extractBindingNames] returns exactly the leaf identifiers of the
    pattern, however deeply object and array patterns nest, and skips the
    holes of array patterns. *)
Theorem extractBindingNames_leaves (patternElements : list (option BindingName))
    (x : string) :
  In x (extractBindingNames patternElements) <->
  exists e, In (Some e) patternElements /\ leafOf x e.
Proof. apply in_extractBindingNames. Qed.

Section ExtractorMore.
Context {host : Host} (config : Config).
Variable getFileExports : FileName -> M (option Result).
Variable currentFilePath : string.

Local Abbreviation effect := (effect config currentFilePath).

Local Abbreviation lookedUp := (lookedUp getFileExports).

Lemma effect_exportedVariables (declarations : list BindingName) :
  forall r,
  effect r (fold_left
              (fun result decl =>
                 match decl with
                 | BindingIdentifier text =>
                     with_commonExport result (JS.add (commonExport result) text)
                 | ObjectBindingPattern elements | ArrayBindingPattern elements =>
                     with_commonExport result
                       (JS.addAll (commonExport result) (extractBindingNames elements))
                 end) declarations r).
Proof.
  induction declarations as [| d ds IH]; intros r; simpl; [constructor |].
  eapply effect_then; [| apply IH].
  destruct d; apply effect_export; intros s Hs;
    first [apply JSFacts.in_add | apply JSFacts.in_addAll]; now left.
Qed.

Lemma effect_handleExportedDeclaration (modifiers : list Modifier) (d : Declared)
      (r : Result) :
  effect r (handleExportedDeclaration modifiers d r).
Proof.
  unfold handleExportedDeclaration.
  destruct (negb (hasModifier ExportKeyword modifiers)); [constructor |].
  destruct (hasModifier DefaultKeyword modifiers).
  - destruct d; constructor.
  - destruct d as [[n |] | [n |] | ds |]; try constructor;
      try (intros s Hs; apply JSFacts.in_add; now left).
    apply effect_exportedVariables.
Qed.

Lemma effect_handleExportAssignment (isExportEquals : bool) (e : Expression)
      (r : Result) :
  effect r (handleExportAssignment isExportEquals e r).
Proof.
  unfold handleExportAssignment. destruct isExportEquals; [constructor |].
  destruct e as [| | [n |] | [n |] | |]; constructor.
Qed.

Lemma effect_handleImportDeclaration (moduleSpecifier : Expression)
      (importClause : option ImportClause) (r r' : Result) (st st' : Service) :
  handleImportDeclaration config getFileExports moduleSpecifier importClause
                          r currentFilePath st = Some (r', st') ->
  effect r r' /\ lookedUp st st'.
Proof.
  intros H. unfold handleImportDeclaration in H. unfold lookedUp.
  destruct moduleSpecifier as [importPath | | | | |];
    try (injection H as <- <-; split; [constructor | auto]).
  destruct (isStyleFile importPath) eqn:Hstyle.
  { injection H as <- <-. split; [now constructor | auto]. }
  destruct (isLocalImportPath config importPath) eqn:Hlocal; simpl in H.
  2: { injection H as <- <-. split; [constructor | auto]. }
  assert (Hend : forall symbols (b : bool) st1,
             (if b then ret (recordImport r
                               (resolveImportPath config currentFilePath importPath)
                               symbols)
              else ret r) st1 = Some (r', st') ->
             effect r r' /\ st' = st1).
  { intros symbols b st1 H1. destruct b; injection H1 as <- <-;
      split; try reflexivity; now constructor. }
  unfold bind in H.
  destruct importClause as [[cn [[elements | ns] |]] |]; simpl in H.
  - apply Hend in H. destruct H as [He ->]. auto.
  - unfold bind in H.
    destruct (getFileExports (resolveImportPath config currentFilePath importPath) st)
      as [[o st1] |] eqn:Hg; [| discriminate].
    destruct o as [t |]; simpl in H; apply Hend in H; destruct H as [He ->];
      split; eauto.
  - apply Hend in H. destruct H as [He ->]. auto.
  - apply (Hend [] true) in H. destruct H as [He ->]. auto.
Qed.

Lemma effect_importTargetSurface (importPath : string) (r r' : Result)
      (st st' : Service) :
  importTargetSurface config getFileExports importPath r currentFilePath st
  = Some (r', st') ->
  effect r r' /\ lookedUp st st'.
Proof.
  intros H. unfold importTargetSurface in H. unfold lookedUp.
  destruct (isStyleFile importPath) eqn:Hstyle.
  { injection H as <- <-. split; [now constructor | auto]. }
  destruct (isLocalImportPath config importPath) eqn:Hlocal.
  2: { injection H as <- <-. split; [constructor | auto]. }
  unfold bind in H.
  destruct (getFileExports (resolveImportPath config currentFilePath importPath) st)
    as [[o st1] |] eqn:Hg; [| discriminate].
  match type of H with
  | (if ?b then _ else _) _ = _ => destruct b
  end; injection H as <- <-; split; eauto; now constructor.
Qed.

Lemma effect_handleExportDeclaration (moduleSpecifier : option Expression)
      (exportClause : option NamedExportBindings) (r r' : Result)
      (st st' : Service) :
  handleExportDeclaration config getFileExports moduleSpecifier exportClause
                          r currentFilePath st = Some (r', st') ->
  effect r r' /\ lookedUp st st'.
Proof.
  intros H. unfold handleExportDeclaration in H. unfold lookedUp.
  assert (Hlocal_case :
            forall exportPath importSymbols exportSymbols,
              isLocalImportPath config exportPath = true ->
              effect r
                (with_commonExport
                   (if (0 <? length importSymbols)%nat
                    then recordImport r
                           (resolveImportPath config currentFilePath exportPath)
                           importSymbols
                    else r)
                   (JS.addAll
                      (commonExport
                         (if (0 <? length importSymbols)%nat
                          then recordImport r
                                 (resolveImportPath config currentFilePath exportPath)
                                 importSymbols
                          else r))
                      exportSymbols))).
  { intros exportPath importSymbols exportSymbols Hlocal.
    eapply effect_then; [| apply effect_export].
    - destruct (0 <? length importSymbols)%nat; now constructor.
    - intros s Hs. apply JSFacts.in_addAll. now left. }
  destruct moduleSpecifier as [[exportPath | | | | |] |].
  1: { destruct (isLocalImportPath config exportPath) eqn:Hlocal.
       2: { injection H as <- <-. split; [constructor | auto]. }
       unfold bind in H.
       destruct exportClause as [[elements | nsName] |].
       - cbv beta iota delta [ret] in H.
         match type of H with
         | context [fold_left ?f ?l ?a] =>
             destruct (fold_left f l a) as [importSymbols exportSymbols]
         end.
         injection H as <- <-.
         split; [apply (Hlocal_case exportPath _ _ Hlocal) | auto].
       - destruct (getFileExports
                     (resolveImportPath config currentFilePath exportPath) st)
           as [[o st1] |] eqn:Hg; [| discriminate].
         destruct o as [t |]; cbv beta iota delta [ret] in H;
           injection H as <- <-.
         + split; [| eauto].
           exact (Hlocal_case exportPath (addTargetExports [] t) (JS.add [] nsName)
                              Hlocal).
         + split; [| eauto]. exact (Hlocal_case exportPath [] [] Hlocal).
       - destruct (getFileExports
                     (resolveImportPath config currentFilePath exportPath) st)
           as [[o st1] |] eqn:Hg; [| discriminate].
         destruct o as [t |]; cbv beta iota delta [ret] in H.
         + match type of H with
           | context [fold_left ?f ?l ?a] =>
               destruct (fold_left f l a) as [importSymbols exportSymbols]
           end.
           injection H as <- <-.
           split; [apply (Hlocal_case exportPath _ _ Hlocal) | eauto].
         + injection H as <- <-.
           split; [| eauto]. exact (Hlocal_case exportPath [] [] Hlocal). }
  all: destruct exportClause as [[elements | nsName] |];
    injection H as <- <-; (split; [| auto]); try constructor;
    intros s Hs; now apply in_fold_add_kept.
Qed.

Lemma effect_visitSyntax (syntax : Syntax) (r r' : Result) (st st' : Service) :
  visitSyntax config getFileExports syntax r currentFilePath st = Some (r', st') ->
  effect r r' /\ lookedUp st st'.
Proof.
  intros H.
  assert (Hkeep : effect r r /\ lookedUp st st) by (split; [constructor | now left]).
  assert (Hdecl : forall modifiers d,
             effect r (handleExportedDeclaration modifiers d r) /\ lookedUp st st).
  { intros. split; [apply effect_handleExportedDeclaration | now left]. }
  destruct syntax; simpl in H;
    try (destruct (hasModifier ExportKeyword modifiers);
         injection H as <- <-; solve [apply Hdecl | exact Hkeep]).
  - eapply effect_handleImportDeclaration; eassumption.
  - unfold handleImportEquals in H.
    destruct moduleReference as [[[[importPath | | | | |] |] |] |];
      try (injection H as <- <-; exact Hkeep).
    eapply effect_importTargetSurface; eassumption.
  - assert (Hargs : forall r2 st2,
               match arguments with
               | StringLiteral importPath :: _ =>
                   importTargetSurface config getFileExports importPath r
                                       currentFilePath
               | _ => ret r
               end st = Some (r2, st2) -> effect r r2 /\ lookedUp st st2).
    { intros r2 st2 H2.
      destruct arguments as [| [importPath | | | | |] args];
        try (injection H2 as <- <-; exact Hkeep).
      eapply effect_importTargetSurface; eassumption. }
    destruct expression; simpl in H;
      try (apply (Hargs _ _ H));
      try (injection H as <- <-; exact Hkeep).
    destruct (String.eqb text "require" && (0 <? length arguments)%nat);
      [apply (Hargs _ _ H) | injection H as <- <-; exact Hkeep].
  - eapply effect_handleExportDeclaration; eassumption.
  - injection H as <- <-.
    split; [apply effect_handleExportAssignment | now left].
  - destruct moduleName; simpl in H;
      destruct (hasModifier ExportKeyword modifiers);
      injection H as <- <-; solve [apply Hdecl | exact Hkeep].
  - injection H as <- <-. exact Hkeep.
Qed.

(** A property of the engine state that [getFileExports] keeps is kept by
    the whole traversal, whose Result differs from the initial one by a
    chain of the effects above. *)
Lemma effect_visitNode (Q : Service -> Prop) :
  (forall p o st st', Q st -> getFileExports p st = Some (o, st') -> Q st') ->
  forall node r r' st st',
  Q st ->
  visitNode config getFileExports node r currentFilePath st = Some (r', st') ->
  effect r r' /\ Q st'.
Proof.
  intros Hlookup node.
  induction node as [syntax children IH] using Node_induction.
  intros r r' st st' HQ H. simpl in H. unfold bind at 1 in H.
  destruct (visitSyntax config getFileExports syntax r currentFilePath st)
    as [[r1 st1] |] eqn:Hs; [| discriminate].
  apply effect_visitSyntax in Hs. destruct Hs as [He Hst].
  assert (HQ1 : Q st1).
  { destruct Hst as [-> | (p & o & Hg)]; [exact HQ | eauto]. }
  clear HQ Hst. revert r1 st1 He HQ1 H.
  induction IH as [| child children Hchild _ IHchildren]; intros r1 st1 He HQ1 H.
  - injection H as <- <-. auto.
  - unfold bind at 1 in H.
    destruct (visitNode config getFileExports child r1 currentFilePath st1)
      as [[r2 st2] |] eqn:Hc; [| discriminate].
    destruct (Hchild _ _ _ _ HQ1 Hc) as [He2 HQ2].
    eapply IHchildren; [| exact HQ2 | exact H].
    eapply effect_then; eassumption.
Qed.

Lemma importedFrom_recordImport (r : Result) (p k : FileName) (symbols : JS.StrSet) :
  importedFrom (recordImport r p symbols) k
  = if String.eqb k p then JS.addAll (importedFrom r p) symbols
    else importedFrom r k.
Proof.
  unfold importedFrom at 1, recordImport. simpl. rewrite JSFacts.get_set.
  destruct (String.eqb k p); reflexivity.
Qed.

Lemma grows_refl (r : Result) : grows r r.
Proof. unfold grows. auto. Qed.

Lemma grows_trans (r1 r2 r3 : Result) : grows r1 r2 -> grows r2 r3 -> grows r1 r3.
Proof.
  unfold grows. intros (A1 & B1 & C1 & D1 & E1) (A2 & B2 & C2 & D2 & E2).
  repeat split; auto.
Qed.

Lemma effect_grows (r r' : Result) : effect r r' -> grows r r'.
Proof.
  induction 1 as [r | r spec Hs | r spec symbols Hl | r c Hc | r d
                  | r1 r2 r3 _ IH1 _ IH2].
  - apply grows_refl.
  - unfold grows, recordStyle.
    destruct (truthy (resolveStylePath config currentFilePath spec));
      [| repeat split; auto].
    destruct (resolveStylePath config currentFilePath spec) as [p |];
      repeat split; auto.
    simpl. intros s Hin. apply JSFacts.in_add. now left.
  - unfold grows. repeat split; auto.
    + intros k Hk. unfold recordImport. simpl. apply JSFacts.in_keys_set. now right.
    + intros k s Hin. rewrite importedFrom_recordImport.
      destruct (String.eqb k (resolveImportPath config currentFilePath spec)) eqn:E;
        [| exact Hin].
      apply String.eqb_eq in E. subst k. apply JSFacts.in_addAll. now left.
  - unfold grows. repeat split; auto.
  - unfold grows. repeat split; auto. simpl. discriminate.
  - eapply grows_trans; eassumption.
Qed.

(** Extraction never removes: every ledger key, every symbol recorded
    under a key, every name of [commonExport] and every style import that
    the Result held before a subtree is visited it still holds afterwards;
    and a default export that was set is still set, though a later default
    export may have replaced its name. *)
Theorem visitNode_grows (node : Node) (r r' : Result) (st st' : Service) :
  visitNode config getFileExports node r currentFilePath st = Some (r', st') ->
  grows r r'.
Proof.
  intros H. apply effect_grows.
  apply (effect_visitNode (fun _ => True) (fun _ _ _ _ _ _ => I) node r r' st st' I H).
Qed.

Lemma effect_styles (r r' : Result) :
  effect r r' ->
  forall s, In s (styleImports r') ->
            In s (styleImports r) \/
            exists spec, isStyleFile spec = true /\
                         resolveStylePath config currentFilePath spec = Some s.
Proof.
  induction 1 as [r | r spec Hs | r spec symbols Hl | r c Hc | r d
                  | r1 r2 r3 _ IH1 _ IH2]; intros s Hin; auto.
  - unfold recordStyle in Hin.
    destruct (truthy (resolveStylePath config currentFilePath spec)); [| auto].
    destruct (resolveStylePath config currentFilePath spec) as [p |] eqn:E; [| auto].
    simpl in Hin. apply JSFacts.in_add in Hin. destruct Hin as [Hin | ->]; eauto.
  - destruct (IH2 s Hin) as [H2 | H2]; auto.
Qed.

End ExtractorMore.

Lemma in_exportedVariables (n : string) (declarations : list BindingName) :
  forall r,
  (In n (commonExport r) \/ exists b, In b declarations /\ leafOf n b) ->
  In n (commonExport
          (fold_left
             (fun result decl =>
                match decl with
                | BindingIdentifier text =>
                    with_commonExport result (JS.add (commonExport result) text)
                | ObjectBindingPattern elements | ArrayBindingPattern elements =>
                    with_commonExport result
                      (JS.addAll (commonExport result) (extractBindingNames elements))
                end) declarations r)).
Proof.
  induction declarations as [| d ds IH]; intros r H; simpl.
  - destruct H as [H | (b & [] & _)]. exact H.
  - apply IH. destruct H as [H | (b & [<- | Hin] & Hl)].
    + left. destruct d; simpl;
        first [apply JSFacts.in_add | apply JSFacts.in_addAll]; now left.
    + left. inversion Hl; subst; simpl.
      * apply JSFacts.in_add. now right.
      * apply JSFacts.in_addAll. right. apply in_extractBindingNames. eauto.
      * apply JSFacts.in_addAll. right. apply in_extractBindingNames. eauto.
    + right. eauto.
Qed.

Lemma in_handleExportedDeclaration (modifiers : list Modifier) (d : Declared)
      (n : string) (r : Result) :
  hasModifier ExportKeyword modifiers = true ->
  hasModifier DefaultKeyword modifiers = false ->
  declaresName d n ->
  In n (commonExport (handleExportedDeclaration modifiers d r)).
Proof.
  intros He Hd Hn. unfold handleExportedDeclaration. rewrite He, Hd. simpl.
  destruct d as [[m |] | [m |] | ds |]; simpl in Hn; try contradiction.
  - subst. simpl. apply JSFacts.in_add. now right.
  - subst. simpl. apply JSFacts.in_add. now right.
  - apply in_exportedVariables. now right.
Qed.

Section TraversalFacts.
Context {host : Host} (config : Config).
Variable getFileExports : FileName -> M (option Result).
Variable currentFilePath : string.

Lemma nested_export_when_returned (syntax : Syntax) (modifiers : list Modifier)
    (d : Declared) (n : string) (node : Node) :
  declared syntax = Some (modifiers, d) ->
  hasModifier ExportKeyword modifiers = true ->
  hasModifier DefaultKeyword modifiers = false ->
  declaresName d n ->
  occursIn syntax node ->
  forall r r' st st',
  visitNode config getFileExports node r currentFilePath st = Some (r', st') ->
  In n (commonExport r').
Proof.
  intros Hdecl He Hd Hn.
  induction node as [syntax' children IH] using Node_induction.
  intros Hocc r r' st st' H. simpl in H. unfold bind at 1 in H.
  destruct (visitSyntax config getFileExports syntax' r currentFilePath st)
    as [[r1 st1] |] eqn:Hs; [| discriminate].
  assert (Hhere : syntax' = syntax -> In n (commonExport r1)).
  { intros ->. unfold visitSyntax in Hs. rewrite Hdecl, He in Hs.
    destruct syntax; try discriminate; simpl in Hdecl;
      injection Hs as <- <-; now apply in_handleExportedDeclaration. }
  assert (Hloop : forall r1 st1,
             (fix forEachChild (cs : list Node) (result : Result) : M Result :=
                match cs with
                | [] => ret result
                | child :: cs' =>
                    result <- visitNode config getFileExports child result
                                        currentFilePath ;;
                    forEachChild cs' result
                end) children r1 st1 = Some (r', st') ->
             grows r1 r' /\
             forall child, In child children -> occursIn syntax child ->
                           In n (commonExport r')).
  { clear H Hs Hhere Hocc r1 st1.
    induction IH as [| child children Hchild _ IHchildren]; intros r1 st1 H.
    - injection H as <- <-. split; [apply grows_refl | intros ? []].
    - unfold bind at 1 in H.
      destruct (visitNode config getFileExports child r1 currentFilePath st1)
        as [[r2 st2] |] eqn:Hc; [| discriminate].
      destruct (IHchildren _ _ H) as [Hg Hrest].
      split.
      + eapply grows_trans; [| exact Hg].
        destruct (effect_visitNode config getFileExports currentFilePath
                    (fun _ => True) (fun _ _ _ _ _ _ => I) _ _ _ _ _ I Hc)
          as [Heff _].
        exact (effect_grows _ _ _ _ Heff).
      + intros c [<- | Hin] Hoc; [| eauto].
        destruct Hg as (_ & _ & Hce & _). apply Hce.
        eapply Hchild; eassumption. }
  destruct (Hloop _ _ H) as [Hg Hbelow].
  inversion Hocc as [cs Heq | syn cs child Hin Hoc Heq]; subst.
  - destruct Hg as (_ & _ & Hce & _). apply Hce. now apply Hhere.
  - eapply Hbelow; eassumption.
Qed.

(** Every lookup through [getFileExports] returns. *)
Hypothesis lookups_return :
  forall p st, exists o st', getFileExports p st = Some (o, st').

Ltac lookup_step :=
  match goal with
  | |- context [getFileExports ?p ?s] =>
      let o := fresh "o" in
      let s1 := fresh "s" in
      let Hg := fresh "Hg" in
      destruct (lookups_return p s) as (o & s1 & Hg); rewrite Hg
  | |- context [match ?x with _ => _ end] =>
      lazymatch type of x with
      | option (_ * Service) => fail
      | _ => destruct x
      end
  end.

Lemma visitSyntax_returns (syntax : Syntax) (r : Result) (st : Service) :
  exists r' st',
    visitSyntax config getFileExports syntax r currentFilePath st = Some (r', st').
Proof.
  destruct syntax; simpl;
    unfold handleImportDeclaration, handleImportEquals, handleDynamicImport,
           handleRequire, importTargetSurface, handleExportDeclaration,
           bind, ret;
    repeat first [ solve [eauto] | lookup_step ].
Qed.

Lemma visitNode_returns (node : Node) :
  forall r st,
  exists r' st',
    visitNode config getFileExports node r currentFilePath st = Some (r', st').
Proof.
  induction node as [syntax children IH] using Node_induction.
  intros r st. simpl. unfold bind at 1.
  destruct (visitSyntax_returns syntax r st) as (r1 & st1 & ->).
  revert r1 st1. induction IH as [| child children Hchild _ IHchildren];
    intros r1 st1.
  - exists r1, st1. reflexivity.
  - unfold bind at 1. destruct (Hchild r1 st1) as (r2 & st2 & ->).
    apply IHchildren.
Qed.


End TraversalFacts.

Section BuilderMore.
Context {host : Host} (config : Config).

Lemma analyzeFile_graph (fuel : nat) :
  forall absolutePath st o st',
  analyzeFile config fuel absolutePath st = Some (o, st') ->
  depsGraph st' = depsGraph st.
Proof.
  induction fuel as [| fuel IH]; intros absolutePath st o st' H; [discriminate |].
  rewrite analyzeFile_S in H.
  destruct (readSourceFile absolutePath) as [sourceFile |].
  2: { injection H as <- <-. reflexivity. }
  unfold bind, logExtraction, updateCache, ret in H.
  match type of H with
  | match ?c with _ => _ end = _ => destruct c as [[r1 st1] |] eqn:Hv; [| discriminate]
  end.
  injection H as <- <-. simpl.
  eapply (effect_visitNode config _ absolutePath
            (fun s => depsGraph s = depsGraph st)) in Hv; [apply Hv | | reflexivity].
  intros p o' s s' Hs Hg. unfold getFileExportsWith, bind, getState, ret in Hg.
  destruct (JS.get (exportCache s) p); [injection Hg as <- <-; exact Hs |].
  destruct (JS.get (depsGraph s) p); [injection Hg as <- <-; exact Hs |].
  destruct (whenTruthy (resolveFilePath p)) as [actualPath |];
    [| injection Hg as <- <-; exact Hs].
  rewrite (IH _ _ _ _ Hg). exact Hs.
Qed.

(** Extraction never writes the dependency graph: neither [analyzeFile] nor
    a lookup through [getFileExports], however many files they analyze on
    the way, adds, removes or replaces a Result of [depsGraph]. *)
Theorem extraction_keeps_graph (fuel : nat) (path : string) (st st' : Service)
    (o : option Result) :
  analyzeFile config fuel path st = Some (o, st') \/
  getFileExports config fuel path st = Some (o, st') ->
  depsGraph st' = depsGraph st.
Proof.
  intros [H | H]; [eapply analyzeFile_graph; exact H |].
  unfold getFileExports, getFileExportsWith, bind, getState, ret in H.
  destruct (JS.get (exportCache st) path); [injection H as <- <-; reflexivity |].
  destruct (JS.get (depsGraph st) path); [injection H as <- <-; reflexivity |].
  destruct (whenTruthy (resolveFilePath path)) as [actualPath |];
    [| injection H as <- <-; reflexivity].
  eapply analyzeFile_graph; exact H.
Qed.

Lemma analyzeFile_outcome (fuel : nat) (absolutePath : string) (st st' : Service)
      (o : option Result) :
  analyzeFile config fuel absolutePath st = Some (o, st') ->
  match o with
  | Some r =>
      readSourceFile absolutePath <> None /\
      JS.get (exportCache st') absolutePath = Some r /\
      In absolutePath (analyzedFiles st')
  | None => readSourceFile absolutePath = None /\ st' = st
  end.
Proof.
  intros H. destruct fuel as [| fuel]; [discriminate |].
  rewrite analyzeFile_S in H.
  destruct (readSourceFile absolutePath) as [sourceFile |].
  2: { injection H as <- <-. auto. }
  unfold bind, logExtraction, updateCache, ret in H.
  match type of H with
  | match ?c with _ => _ end = _ => destruct c as [[r1 st1] |]; [| discriminate]
  end.
  injection H as <- <-. simpl. repeat split.
  - discriminate.
  - rewrite JSFacts.get_set, String.eqb_refl. reflexivity.
  - apply JSFacts.in_add. now right.
Qed.

(** A file that cannot be read: [analyzeFile] returns [null] and leaves
    the engine untouched.  And whenever [analyzeFile] returns a Result, the
    file was readable and is cached: the Result is in [exportCache] under
    the path, the path is in [analyzedFiles], and a later [getFileExports]
    for the path returns that same Result without extracting anything or
    changing the engine. *)
Theorem analyzeFile_caches (fuel : nat) (absolutePath : string) (st : Service) :
  (readSourceFile absolutePath = None ->
   analyzeFile config (S fuel) absolutePath st = Some (None, st)) /\
  (forall fuel0 o st',
      analyzeFile config fuel0 absolutePath st = Some (o, st') ->
      match o with
      | Some r =>
          readSourceFile absolutePath <> None /\
          JS.get (exportCache st') absolutePath = Some r /\
          In absolutePath (analyzedFiles st') /\
          forall fuel',
            getFileExports config fuel' absolutePath st' = Some (Some r, st')
      | None => readSourceFile absolutePath = None /\ st' = st
      end).
Proof.
  split.
  - intros Hread. rewrite analyzeFile_S, Hread. reflexivity.
  - intros fuel0 o st' H. apply analyzeFile_outcome in H.
    destruct o as [r |]; [| exact H].
    destruct H as (Hread & Hcache & Hdone). repeat split; try assumption.
    intros fuel'. unfold getFileExports, getFileExportsWith, bind, getState.
    rewrite Hcache. reflexivity.
Qed.

(** Every style import of an extracted file is [resolveStylePath] of a
    specifier that [isStyleFile] accepted; nothing else enters
    [styleImports]. *)
Theorem style_imports_are_style_specifiers (fuel : nat) (absolutePath : string)
    (st st' : Service) (result : Result) (s : FileName) :
  analyzeFile config fuel absolutePath st = Some (Some result, st') ->
  In s (styleImports result) ->
  exists spec, isStyleFile spec = true /\
               resolveStylePath config absolutePath spec = Some s.
Proof.
  intros H Hs. destruct fuel as [| fuel]; [discriminate |].
  rewrite analyzeFile_S in H.
  destruct (readSourceFile absolutePath) as [sourceFile |]; [| discriminate].
  unfold bind, logExtraction, updateCache, ret in H.
  match type of H with
  | match ?c with _ => _ end = _ => destruct c as [[r1 st1] |] eqn:Hv; [| discriminate]
  end.
  injection H as <- <-.
  eapply (effect_visitNode config _ absolutePath (fun _ => True)) in Hv; auto.
  destruct Hv as [He _].
  destruct (effect_styles config absolutePath _ _ He s Hs) as [[] | Hspec].
  exact Hspec.
Qed.

End BuilderMore.

(* ================================================================== *)
(** * More on the graph builder and the query *)

Lemma forEachM_invariant {A S} (P : S -> Service -> Prop) (body : A -> S -> M S)
      (xs : list A) :
  (forall x s st s' st', In x xs -> P s st -> body x s st = Some (s', st') -> P s' st') ->
  forall s st s' st', P s st -> forEachM body xs s st = Some (s', st') -> P s' st'.
Proof.
  induction xs as [| x xs IH]; intros Hbody s st s' st' HP H; simpl in H.
  - injection H as <- <-. exact HP.
  - unfold bind in H. destruct (body x s st) as [[s1 st1] |] eqn:E; [| discriminate].
    apply (IH (fun y t u t' u' Hy => Hbody y t u t' u' (or_intror Hy)) s1 st1);
      [| exact H].
    apply (Hbody x s st s1 st1 (or_introl eq_refl) HP E).
Qed.

Lemma graphKept_refl (st : Service) : graphKept st st.
Proof. unfold graphKept. auto. Qed.

Lemma graphKept_trans (st1 st2 st3 : Service) :
  graphKept st1 st2 -> graphKept st2 st3 -> graphKept st1 st3.
Proof. unfold graphKept. auto. Qed.

Section GraphFacts.
Context {host : Host} (config : Config).

(** What one call of [analyzeFileRecursive] guarantees. *)
Lemma analyzeFileRecursive_outcome (fuel : nat) :
  forall absolutePath visitedFiles visitedFiles' st st',
  analyzeFileRecursive config fuel absolutePath visitedFiles st
  = Some (visitedFiles', st') ->
  incl visitedFiles visitedFiles' /\
  In absolutePath visitedFiles' /\
  graphKept st st' /\
  (JS.has visitedFiles absolutePath = false ->
   match whenTruthy (resolveFilePath absolutePath) with
   | Some actualPath =>
       JS.mhas (depsGraph st') actualPath = true \/
       (readSourceFile actualPath = None /\ visitedFiles' = JS.add visitedFiles absolutePath
        /\ st' = st)
   | None => visitedFiles' = JS.add visitedFiles absolutePath /\ st' = st
   end).
Proof.
  induction fuel as [| fuel IH];
    intros absolutePath visitedFiles visitedFiles' st st' H; [discriminate |].
  simpl in H. destruct (JS.has visitedFiles absolutePath) eqn:Hv.
  { injection H as <- <-. repeat split.
    - apply incl_refl.
    - now apply JSFacts.has_true.
    - apply graphKept_refl.
    - discriminate. }
  assert (Hloop : forall keys st1 v' st2,
             graphKept st st1 ->
             forEachM (analyzeFileRecursive config fuel) keys
                      (JS.add visitedFiles absolutePath) st1 = Some (v', st2) ->
             incl (JS.add visitedFiles absolutePath) v' /\ graphKept st1 st2).
  { intros keys st1 v' st2 _ Hrun.
    apply (forEachM_invariant
             (fun v s => incl (JS.add visitedFiles absolutePath) v /\ graphKept st1 s)
             (analyzeFileRecursive config fuel) keys) in Hrun.
    - exact Hrun.
    - intros x v s v2 s2 _ [Hi Hk] Hcall.
      destruct (IH _ _ _ _ _ Hcall) as (Hi2 & _ & Hk2 & _).
      split; [eapply incl_tran | eapply graphKept_trans]; eassumption.
    - split; [apply incl_refl | apply graphKept_refl]. }
  assert (Hin : forall v', incl (JS.add visitedFiles absolutePath) v' ->
                           incl visitedFiles v' /\ In absolutePath v').
  { intros v' Hi. split.
    - eapply incl_tran; [apply JSFacts.add_incl | exact Hi].
    - apply Hi. apply JSFacts.in_add. now right. }
  destruct (whenTruthy (resolveFilePath absolutePath)) as [actualPath |].
  2: { injection H as <- <-. destruct (Hin _ (incl_refl _)) as [H1 H2].
       repeat split; auto. apply graphKept_refl. }
  unfold bind, getState in H.
  destruct (JS.get (depsGraph st) actualPath) as [known |] eqn:Hg.
  - destruct (Hloop _ _ _ _ (graphKept_refl st) H) as [Hi Hk].
    destruct (Hin _ Hi) as [H1 H2]. repeat split; auto.
    intros _. left. unfold JS.mhas. now rewrite (Hk _ _ Hg).
  - destruct (analyzeFile config fuel actualPath st) as [[o st1] |] eqn:Ha;
      [| discriminate].
    pose proof (analyzeFile_graph config _ _ _ _ _ Ha) as Hsame.
    pose proof (analyzeFile_outcome config _ _ _ _ _ Ha) as Hout.
    destruct o as [result |].
    + unfold setDepsGraph in H. 
      set (st2 := mkService (JS.set (depsGraph st1) actualPath result)
                            (analyzedFiles st1) (exportCache st1)
                            (extractionLog st1)) in H.
      assert (Hk12 : graphKept st st2).
      { intros k r Hkr. unfold st2. simpl. rewrite JSFacts.get_set.
        destruct (String.eqb k actualPath) eqn:E.
        - apply String.eqb_eq in E. subst k. congruence.
        - rewrite Hsame. exact Hkr. }
      destruct (Hloop _ _ _ _ Hk12 H) as [Hi Hk].
      destruct (Hin _ Hi) as [H1 H2]. repeat split; auto.
      * eapply graphKept_trans; eassumption.
      * intros _. left. unfold JS.mhas.
        rewrite (Hk actualPath result); [reflexivity |].
        unfold st2. simpl. rewrite JSFacts.get_set, String.eqb_refl. reflexivity.
    + injection H as <- <-. destruct Hout as [Hread ->].
      destruct (Hin _ (incl_refl _)) as [H1 H2]. repeat split; auto.
      apply graphKept_refl.
Qed.

Lemma forEachC_invariant {A S} (P : Service -> Prop)
      (body : A -> S -> M (Completion S)) (xs : list A) :
  (forall x s st c st', In x xs -> P st -> body x s st = Some (c, st') -> P st') ->
  forall s st c st', P st -> forEachC body xs s st = Some (c, st') -> P st'.
Proof.
  induction xs as [| x xs IH]; intros Hbody s st c st' HP H; simpl in H.
  - injection H as <- <-. exact HP.
  - unfold bind in H. destruct (body x s st) as [[c1 st1] |] eqn:E; [| discriminate].
    pose proof (Hbody x s st c1 st1 (or_introl eq_refl) HP E) as HP1.
    destruct c1 as [s1 |].
    + apply (IH (fun y t u d u' Hy => Hbody y t u d u' (or_intror Hy)) s1 st1 c st');
        assumption.
    + injection H as <- <-. exact HP1.
Qed.

Lemma analyzeDirectory_outcome (fuel : nat) :
  forall dirPath visitedFiles c st st',
  analyzeDirectory config fuel dirPath visitedFiles st = Some (c, st') ->
  graphKept st st'.
Proof.
  induction fuel as [| fuel IH]; intros dirPath visitedFiles c st st' H;
    [discriminate |].
  simpl in H.
  destruct (negb (existsSync dirPath) || negb (isDirectory dirPath)).
  { injection H as <- <-. apply graphKept_refl. }
  apply (forEachC_invariant (fun s => graphKept st s)) in H.
  - exact H.
  - intros file v s c2 s2 _ Hk Hcall.
    destruct (negb (existsSync (join dirPath file))).
    { injection Hcall as <- <-. exact Hk. }
    destruct (isDirectory (join dirPath file)).
    + eapply graphKept_trans; [exact Hk | eapply IH; exact Hcall].
    + destruct (isFile (join dirPath file) && isTypeScriptFile (join dirPath file)).
      * unfold bind in Hcall.
        destruct (analyzeFileRecursive config fuel (join dirPath file) v s)
          as [[v2 s3] |] eqn:E; [| discriminate].
        injection Hcall as <- <-.
        destruct (analyzeFileRecursive_outcome _ _ _ _ _ _ E) as (_ & _ & Hk2 & _).
        eapply graphKept_trans; eassumption.
      * injection Hcall as <- <-. exact Hk.
  - apply graphKept_refl.
Qed.

Lemma initDepsGraph_outcome (fuel : nat) (st st' : Service) (c : Completion unit) :
  initDepsGraph config fuel st = Some (c, st') -> graphKept st st'.
Proof.
  intros H. unfold initDepsGraph in H. unfold bind at 1 in H.
  match type of H with
  | match ?run with _ => _ end = _ =>
      destruct run as [[c0 st1] |] eqn:E; [| discriminate]
  end.
  assert (st' = st1) as -> by (destruct c0; now injection H as <- <-).
  apply (forEachC_invariant (fun s => graphKept st s)) in E.
  - exact E.
  - intros dir v s c2 s2 _ Hk Hcall.
    destruct (whenTruthy (findEntryFile dir)) as [entryFile |].
    + unfold bind in Hcall.
      destruct (analyzeFileRecursive config fuel entryFile v s)
        as [[v2 s3] |] eqn:E2; [| discriminate].
      injection Hcall as <- <-.
      destruct (analyzeFileRecursive_outcome _ _ _ _ _ _ E2) as (_ & _ & Hk2 & _).
      eapply graphKept_trans; eassumption.
    + eapply graphKept_trans; [exact Hk | eapply analyzeDirectory_outcome; exact Hcall].
  - apply graphKept_refl.
Qed.

Lemma query_outcome (fuel : nat) (absFilePath : string) (st st' : Service)
      (res : list string) :
  query config fuel absFilePath st = Some (res, st') -> graphKept st st'.
Proof.
  intros H. unfold query in H.
  destruct (whenTruthy (resolveFilePath absFilePath)) as [actualPath |].
  2: { injection H as <- <-. apply graphKept_refl. }
  unfold bind, getState, ret, outOfFuel in H.
  assert (Hrest : forall st1,
             match findAllFinalDependencies fuel (depsGraph st1) actualPath ([], [])
             with
             | Some (finalDeps, _) =>
                 fun st2 : Service =>
                   Some (JS.addAll finalDeps
                                   (collectStyles (depsGraph st1) finalDeps), st2)
             | None => fun _ : Service => None
             end st1 = Some (res, st') -> st' = st1).
  { intros st1 H1.
    destruct (findAllFinalDependencies fuel (depsGraph st1) actualPath ([], []))
      as [[finalDeps visited] |]; [| discriminate].
    now injection H1 as <- <-. }
  destruct (negb (JS.mhas (depsGraph st) actualPath)).
  - destruct (analyzeFileRecursive config fuel actualPath [] st)
      as [[v1 st1] |] eqn:E; [| discriminate].
    rewrite (Hrest st1 H).
    destruct (analyzeFileRecursive_outcome _ _ _ _ _ _ E) as (_ & _ & Hk & _).
    exact Hk.
  - rewrite (Hrest st H). apply graphKept_refl.
Qed.

(** The dependency graph is append-only: whichever operation runs
    ([query], [initDepsGraph], [analyzeFileRecursive], [analyzeDirectory]),
    and whether the directory walk returns or throws, every Result that was
    in [depsGraph] before is there, unchanged, afterwards. *)
Theorem graph_is_append_only (fuel : nat) (st st' : Service) :
  (exists path res, query config fuel path st = Some (res, st')) \/
  (exists c, initDepsGraph config fuel st = Some (c, st')) \/
  (exists path v v', analyzeFileRecursive config fuel path v st = Some (v', st')) \/
  (exists path v c, analyzeDirectory config fuel path v st = Some (c, st')) ->
  forall file r,
  JS.get (depsGraph st) file = Some r -> JS.get (depsGraph st') file = Some r.
Proof.
  intros [(path & res & H) | [(c & H) | [(path & v & v' & H) | (path & v & c & H)]]].
  - eapply query_outcome; exact H.
  - eapply initDepsGraph_outcome; exact H.
  - eapply analyzeFileRecursive_outcome; exact H.
  - eapply analyzeDirectory_outcome; exact H.
Qed.

Lemma forEachM_visited (fuel : nat) (keys : list FileName)
    (visitedFiles : JS.StrSet) (st : Service) :
  (forall k, In k keys -> JS.has visitedFiles k = true) ->
  forEachM (analyzeFileRecursive config (S fuel)) keys visitedFiles st
  = Some (visitedFiles, st).
Proof.
  induction keys as [| k keys IH]; intros Hall; [reflexivity |].
  cbn [forEachM]. unfold bind at 1.
  replace (analyzeFileRecursive config (S fuel) k visitedFiles st)
    with (Some (visitedFiles, st)).
  - apply IH. intros k' Hk'. apply Hall. now right.
  - simpl. rewrite (Hall k (or_introl eq_refl)). reflexivity.
Qed.

(** [analyzeFileRecursive] returns at once, changing nothing, on a path
    already visited; it skips a path that does not resolve and a file that
    cannot be read, returning with the path marked visited and the engine
    untouched; and where the extraction of a fresh file returns a Result
    whose import keys are all visited already, it returns with the path
    marked visited and that Result in the graph.  It never returns from a
    path not visited before without having marked it visited, kept
    everything visited before and, when the path resolves to a readable
    file, left that file with a Result in the graph. *)
Theorem analyzeFileRecursive_records_or_skips (fuel : nat)
    (absolutePath : string) (visitedFiles : JS.StrSet) (st : Service) :
  (JS.has visitedFiles absolutePath = true ->
   analyzeFileRecursive config (S fuel) absolutePath visitedFiles st
   = Some (visitedFiles, st)) /\
  (JS.has visitedFiles absolutePath = false ->
   whenTruthy (resolveFilePath absolutePath) = None ->
   analyzeFileRecursive config (S fuel) absolutePath visitedFiles st
   = Some (JS.add visitedFiles absolutePath, st)) /\
  (forall actualPath,
      JS.has visitedFiles absolutePath = false ->
      whenTruthy (resolveFilePath absolutePath) = Some actualPath ->
      JS.get (depsGraph st) actualPath = None ->
      readSourceFile actualPath = None ->
      analyzeFileRecursive config (S (S fuel)) absolutePath visitedFiles st
      = Some (JS.add visitedFiles absolutePath, st)) /\
  (forall actualPath result st1,
      JS.has visitedFiles absolutePath = false ->
      whenTruthy (resolveFilePath absolutePath) = Some actualPath ->
      JS.get (depsGraph st) actualPath = None ->
      analyzeFile config (S fuel) actualPath st = Some (Some result, st1) ->
      (forall k, In k (JS.keys (import result)) ->
                 JS.has (JS.add visitedFiles absolutePath) k = true) ->
      exists st2,
        analyzeFileRecursive config (S (S fuel)) absolutePath visitedFiles st
        = Some (JS.add visitedFiles absolutePath, st2) /\
        JS.get (depsGraph st2) actualPath = Some result) /\
  (forall fuel0 visitedFiles' st' actualPath,
      analyzeFileRecursive config fuel0 absolutePath visitedFiles st
      = Some (visitedFiles', st') ->
      JS.has visitedFiles absolutePath = false ->
      whenTruthy (resolveFilePath absolutePath) = Some actualPath ->
      readSourceFile actualPath <> None ->
      incl visitedFiles visitedFiles' /\
      In absolutePath visitedFiles' /\
      JS.mhas (depsGraph st') actualPath = true).
Proof.
  assert (Hunfold : forall n,
             analyzeFileRecursive config (S n) absolutePath visitedFiles st =
             (if JS.has visitedFiles absolutePath then ret visitedFiles
              else
                let visited1 := JS.add visitedFiles absolutePath in
                match whenTruthy (resolveFilePath absolutePath) with
                | None => ret visited1
                | Some actualPath =>
                    s <- getState ;;
                    match JS.get (depsGraph s) actualPath with
                    | Some result =>
                        forEachM (analyzeFileRecursive config n)
                                 (JS.keys (import result)) visited1
                    | None =>
                        analyzed <- analyzeFile config n actualPath ;;
                        match analyzed with
                        | Some result =>
                            _ <- setDepsGraph actualPath result ;;
                            forEachM (analyzeFileRecursive config n)
                                     (JS.keys (import result)) visited1
                        | None => ret visited1
                        end
                    end
                end) st) by reflexivity.
  repeat split.
  - intros Hv. rewrite Hunfold, Hv. reflexivity.
  - intros Hv Hres. rewrite Hunfold, Hv, Hres. reflexivity.
  - intros actualPath Hv Hres Hg Hread.
    rewrite Hunfold, Hv, Hres. unfold bind, getState. rewrite Hg.
    rewrite analyzeFile_S, Hread. reflexivity.
  - intros actualPath result st1 Hv Hres Hg Hrun Hkeys.
    rewrite Hunfold, Hv, Hres. unfold bind at 1, getState. rewrite Hg.
    unfold bind at 1. rewrite Hrun. unfold bind at 1, setDepsGraph.
    rewrite forEachM_visited by exact Hkeys.
    eexists. split; [reflexivity |].
    simpl. rewrite JSFacts.get_set, String.eqb_refl. reflexivity.
  - destruct (analyzeFileRecursive_outcome _ _ _ _ _ _ H) as (Hi & _). exact Hi.
  - destruct (analyzeFileRecursive_outcome _ _ _ _ _ _ H) as (_ & Hin & _).
    exact Hin.
  - destruct (analyzeFileRecursive_outcome _ _ _ _ _ _ H) as (_ & _ & _ & Hcase).
    specialize (Hcase H0). rewrite H1 in Hcase.
    destruct Hcase as [Hhas | (Hread & _)]; [exact Hhas | contradiction].
Qed.

(** A path for which neither the file itself nor any candidate exists is
    answered with the empty list, and the engine is left as it was. *)
Theorem query_of_missing_file (fuel : nat) (absFilePath : string) (st : Service) :
  existsSync absFilePath && isFile absFilePath = false ->
  (forall q, In q (appended absFilePath extensions
                   ++ indexFiles absFilePath extensions) ->
             existsSync q = false) ->
  query config fuel absFilePath st = Some ([], st).
Proof.
  intros Hlit Hnone. unfold query.
  assert (resolveFilePath absFilePath = None) as ->; [| reflexivity].
  unfold resolveFilePath. rewrite Hlit, probeAppended_find, probeIndex_find.
  rewrite <- find_app.
  destruct (find existsSync _) as [q |] eqn:E; [| reflexivity].
  apply find_some in E. destruct E as [Hin He].
  rewrite (Hnone q Hin) in He. discriminate.
Qed.

(** Idempotence: once the queried file has a Result in the graph, asking
    again returns the same list and leaves the engine unchanged. *)
Theorem query_is_idempotent (fuel : nat) (absFilePath actualPath : string)
    (st st' : Service) (res : list string) :
  query config fuel absFilePath st = Some (res, st') ->
  whenTruthy (resolveFilePath absFilePath) = Some actualPath ->
  JS.mhas (depsGraph st') actualPath = true ->
  query config fuel absFilePath st' = Some (res, st').
Proof.
  intros H Hact Hhas.
  destruct (query_result config _ _ _ _ _ _ H Hact)
    as (finalDeps & visited & Hfind & ->).
  unfold query. rewrite Hact. unfold bind, getState, ret.
  rewrite Hhas. simpl. rewrite Hfind. reflexivity.
Qed.

End GraphFacts.

(* ================================================================== *)
(** * More on the tracer and the closure *)

Section TracerMore.
Variable g : FileAnalysisResult.
Variable symbol : SymbolName.

Lemma traceImports_none (recur : FileName -> option JS.StrSet)
      (entries : list (FileName * JS.StrSet)) :
  existsb (carries symbol) entries = false ->
  forall found sources,
  traceImports recur symbol entries found sources = Some (found, sources).
Proof.
  induction entries as [| [p syms] entries IH]; intros Hnone found sources; simpl.
  - reflexivity.
  - simpl in Hnone. apply orb_false_iff in Hnone. destruct Hnone as [Hc Hrest].
    unfold carries in Hc. simpl in Hc. rewrite Hc. now apply IH.
Qed.

(** A file that exports the symbol and imports it from nowhere is the one
    origin. *)
Lemma trace_declared_here (filePath : string) (visited : JS.StrSet) (info : Result) :
  JS.has visited filePath = false ->
  JS.get g filePath = Some info ->
  isExported info symbol = true ->
  existsb (carries symbol) (import info) = false ->
  traceSymbolSource g filePath symbol visited = [filePath].
Proof.
  intros Hv Hg He Hnone.
  pose proof (traceSymbolSource_total g symbol filePath visited) as Ht.
  rewrite traceSymbolSourceFuel_S, Hv, Hg, He in Ht. simpl in Ht.
  rewrite (traceImports_none _ _ Hnone) in Ht. simpl in Ht.
  now injection Ht as <-.
Qed.

(** A file that exports the symbol and imports it along some edges passes
    the trace on to the targets of exactly those edges. *)
Lemma trace_through_edges (filePath : string) (visited : JS.StrSet) (info : Result) :
  JS.has visited filePath = false ->
  JS.get g filePath = Some info ->
  isExported info symbol = true ->
  existsb (carries symbol) (import info) = true ->
  forall x,
  In x (traceSymbolSource g filePath symbol visited) <->
  exists edge, In edge (import info) /\ carries symbol edge = true /\
               In x (traceSymbolSource g (fst edge) symbol (JS.add visited filePath)).
Proof.
  intros Hv Hg He Hsome x.
  pose proof (traceSymbolSource_total g symbol filePath visited) as Ht.
  rewrite traceSymbolSourceFuel_S, Hv, Hg, He in Ht. simpl in Ht.
  destruct (traceImports _ symbol (import info) false [])
    as [[found sources] |] eqn:E; [| discriminate].
  apply traceImports_spec in E. destruct E as [Hfound Hsources].
  simpl in Hfound. rewrite Hsome in Hfound. subst found. simpl in Ht.
  injection Ht as <-. rewrite Hsources.
  assert (Hsub : forall p,
             traceSymbolSourceFuel (length g) g p symbol (JS.add visited filePath)
             = Some (traceSymbolSource g p symbol (JS.add visited filePath))).
  { intros p. apply traceSymbolSource_fuel.
    pose proof (unvisited_add_lt g visited filePath info Hv Hg).
    pose proof (unvisited_bound g visited). lia. }
  split.
  - intros [[] | (edge & sub & Hin & Hc & Hr & Hx)].
    rewrite Hsub in Hr. injection Hr as <-. eauto.
  - intros (edge & Hin & Hc & Hx). right. eauto 7.
Qed.

(** The depth of the stack does not matter once it is enough: every
    allowance of more than [length g] frames gives the same set. *)
Theorem traceSymbolSource_any_fuel (fuel : nat) (filePath : string)
    (visited : JS.StrSet) :
  length g < fuel ->
  traceSymbolSourceFuel fuel g filePath symbol visited
  = Some (traceSymbolSource g filePath symbol visited).
Proof.
  intros Hfuel. apply traceSymbolSource_fuel.
  pose proof (unvisited_bound g visited). lia.
Qed.

(** Provenance: whatever the tracer returns is the file it started from or
    an import key of the graph, and it declares the symbol: it has no Result
    in the graph, or it exports the symbol and binds it along none of its
    own import edges. *)
Theorem traced_origin_declares (filePath : string) (visited : JS.StrSet)
    (x : FileName) :
  In x (traceSymbolSource g filePath symbol visited) ->
  (x = filePath \/ In x (importKeys g)) /\ declares g symbol x.
Proof.
  intros Hx. split.
  - eapply traceSymbolSource_sources. exact Hx.
  - eapply traceSymbolSource_declares. exact Hx.
Qed.

(** Re-export: when [a] forwards the symbol only from [b], and [b] exports
    it and imports it from nowhere, the symbol traces from [a] to [b] and
    to nothing else, as it does from [b] itself. *)
Theorem reexport_traces_to_declaring_file (a b : FileName) (infoA infoB : Result) :
  a <> b ->
  JS.get g a = Some infoA -> JS.get g b = Some infoB ->
  isExported infoA symbol = true -> isExported infoB symbol = true ->
  existsb (carries symbol) (import infoA) = true ->
  (forall edge, In edge (import infoA) -> carries symbol edge = true -> fst edge = b) ->
  existsb (carries symbol) (import infoB) = false ->
  (forall x, In x (traceSymbolSource g a symbol []) <-> x = b) /\
  traceSymbolSource g b symbol [] = [b].
Proof.
  intros Hab Ha Hb Hea Heb Hsome Honly Hnone.
  assert (Hvb : JS.has (JS.add [] a) b = false).
  { apply JSFacts.has_false. intros Hin. apply JSFacts.in_add in Hin.
    destruct Hin as [[] | ->]. now apply Hab. }
  split.
  - intros x. rewrite (trace_through_edges a [] infoA eq_refl Ha Hea Hsome). split.
    + intros (edge & Hin & Hc & Hx). rewrite (Honly edge Hin Hc) in Hx.
      rewrite (trace_declared_here b _ infoB Hvb Hb Heb Hnone) in Hx.
      destruct Hx as [<- | []]. reflexivity.
    + intros ->. apply existsb_exists in Hsome. destruct Hsome as (edge & Hin & Hc).
      exists edge. repeat split; try assumption.
      rewrite (Honly edge Hin Hc).
      rewrite (trace_declared_here b _ infoB Hvb Hb Heb Hnone). now left.
  - apply (trace_declared_here b [] infoB eq_refl Hb Heb Hnone).
Qed.

(** Self-import: a file that exports the symbol and binds it only along
    edges to itself has no origin for it at all; the trace is empty. *)
Theorem self_import_traces_nothing (f : FileName) (info : Result) :
  JS.get g f = Some info ->
  isExported info symbol = true ->
  existsb (carries symbol) (import info) = true ->
  (forall edge, In edge (import info) -> carries symbol edge = true -> fst edge = f) ->
  traceSymbolSource g f symbol [] = [].
Proof.
  intros Hg He Hsome Honly.
  destruct (traceSymbolSource g f symbol []) as [| x xs] eqn:E; [reflexivity |].
  assert (Hx : In x (traceSymbolSource g f symbol [])) by (rewrite E; now left).
  apply (trace_through_edges f [] info eq_refl Hg He Hsome) in Hx.
  destruct Hx as (edge & Hin & Hc & Hx). rewrite (Honly edge Hin Hc) in Hx.
  pose proof (traceSymbolSource_total g symbol f (JS.add [] f)) as Ht.
  rewrite traceSymbolSourceFuel_S in Ht.
  assert (Hv : JS.has (JS.add [] f) f = true).
  { apply JSFacts.has_true, JSFacts.in_add. now right. }
  rewrite Hv in Ht. injection Ht as Ht. rewrite <- Ht in Hx. destruct Hx.
Qed.

End TracerMore.

Lemma forEachO_ext {A S} (body1 body2 : A -> S -> option S) (xs : list A) :
  (forall x s s', In x xs -> body1 x s = Some s' -> body2 x s = Some s') ->
  forall s s', forEachO body1 xs s = Some s' -> forEachO body2 xs s = Some s'.
Proof.
  induction xs as [| x xs IH]; intros Hext s s' H; simpl in H |- *; [exact H |].
  destruct (body1 x s) as [s1 |] eqn:E; [| discriminate].
  rewrite (Hext x s s1 (or_introl eq_refl) E).
  apply IH; [| exact H]. intros y t t' Hy. apply Hext. now right.
Qed.

Lemma forEachO_covers {A S} (le : S -> S -> Prop) (Q : A -> S -> Prop)
      (body : A -> S -> option S) (xs : list A) :
  (forall s, le s s) ->
  (forall s1 s2 s3, le s1 s2 -> le s2 s3 -> le s1 s3) ->
  (forall x s s', Q x s -> le s s' -> Q x s') ->
  (forall x s s', In x xs -> body x s = Some s' -> le s s' /\ Q x s') ->
  forall s s', forEachO body xs s = Some s' ->
               le s s' /\ forall x, In x xs -> Q x s'.
Proof.
  intros Hrefl Htrans Hmono.
  induction xs as [| x xs IH]; intros Hbody s s' H; simpl in H.
  - injection H as <-. split; [apply Hrefl | intros ? []].
  - destruct (body x s) as [s1 |] eqn:E; [| discriminate].
    destruct (Hbody x s s1 (or_introl eq_refl) E) as [Hle HQ].
    destruct (IH (fun y t t' Hy => Hbody y t t' (or_intror Hy)) s1 s' H)
      as [Hle' Hrest].
    split; [eapply Htrans; eassumption |].
    intros y [<- | Hy]; [eapply Hmono; eassumption | auto].
Qed.

Section ClosureMore.
Variable g : FileAnalysisResult.

Lemma findAllFinalDependencies_step (fuel : nat) :
  forall filePath c c',
  findAllFinalDependencies fuel g filePath c = Some c' ->
  findAllFinalDependencies (S fuel) g filePath c = Some c'.
Proof.
  induction fuel as [| fuel IH]; intros filePath [finalDeps visited] c' H;
    [discriminate |].
  change (findAllFinalDependencies (S (S fuel)) g filePath (finalDeps, visited))
    with (if JS.has visited filePath then Some (finalDeps, visited)
          else match JS.get g filePath with
               | None => Some (finalDeps, JS.add visited filePath)
               | Some fileInfo =>
                   expandEdges (findAllFinalDependencies (S fuel) g) g
                               (import fileInfo)
                               (finalDeps, JS.add visited filePath)
               end).
  change (findAllFinalDependencies (S fuel) g filePath (finalDeps, visited))
    with (if JS.has visited filePath then Some (finalDeps, visited)
          else match JS.get g filePath with
               | None => Some (finalDeps, JS.add visited filePath)
               | Some fileInfo =>
                   expandEdges (findAllFinalDependencies fuel g) g
                               (import fileInfo)
                               (finalDeps, JS.add visited filePath)
               end) in H.
  destruct (JS.has visited filePath); [exact H |].
  destruct (JS.get g filePath) as [info |]; [| exact H].
  revert H. unfold expandEdges.
  apply forEachO_ext. intros [importPath symbols] c1 c1' _.
  apply forEachO_ext. intros sym c2 c2' _.
  apply forEachO_ext. intros source [fd v] c3' _. apply IH.
Qed.

(** The closure computation returns, and the depth of the stack does not
    matter once it is enough: every allowance of more than
    [length (importKeys g) + 1] frames gives the same two sets. *)
Theorem findAllFinalDependencies_any_fuel (filePath : string) :
  exists finalDeps visited,
    forall fuel, S (length (importKeys g)) < fuel ->
                 findAllFinalDependencies fuel g filePath ([], [])
                 = Some (finalDeps, visited).
Proof.
  destruct (findAllFinalDependencies_returns g filePath) as (fd & v & H).
  exists fd, v. intros fuel Hfuel.
  assert (Hle : S (S (length (importKeys g))) <= fuel) by lia.
  clear Hfuel. induction Hle as [| fuel Hle IH]; [exact H |].
  now apply findAllFinalDependencies_step.
Qed.

Lemma expandEdges_covers (recur : FileName -> Closure -> option Closure)
      (entries : list (FileName * JS.StrSet)) :
  (forall source finalDeps visited c',
      recur source (JS.add finalDeps source, visited) = Some c' ->
      incl (JS.add finalDeps source) (fst c')) ->
  forall c c',
  expandEdges recur g entries c = Some c' ->
  incl (fst c) (fst c') /\
  forall importPath symbols sym source,
    In (importPath, symbols) entries -> In sym symbols ->
    In source (traceSymbolSource g importPath sym []) ->
    In source (fst c').
Proof.
  intros Hrecur c c' H. unfold expandEdges in H.
  assert (Hrefl : forall s : Closure, fdIncl s s) by (intros s; apply incl_refl).
  assert (Htrans : forall s1 s2 s3 : Closure,
             fdIncl s1 s2 -> fdIncl s2 s3 -> fdIncl s1 s3)
    by (intros s1 s2 s3; apply incl_tran).
  apply (forEachO_covers fdIncl
           (fun (e : FileName * JS.StrSet) (s : Closure) =>
              forall sym source, In sym (snd e) ->
                                 In source (traceSymbolSource g (fst e) sym []) ->
                                 In source (fst s))) in H;
    try assumption.
  - destruct H as [Hle Hall]. split; [exact Hle |].
    intros importPath symbols sym source Hin. apply (Hall (importPath, symbols) Hin).
  - intros e s s' HQ Hle sym source Hs Hsrc. apply Hle. eauto.
  - intros [importPath symbols] s s' _ Hbody.
    apply (forEachO_covers fdIncl
             (fun (sym : string) (s : Closure) =>
                forall source, In source (traceSymbolSource g importPath sym []) ->
                               In source (fst s))) in Hbody;
      try assumption.
    + destruct Hbody as [Hle Hall]. split; [exact Hle |].
      intros sym source Hs. apply (Hall sym Hs).
    + intros sym t t' HQ Hle source Hsrc. apply Hle. eauto.
    + intros sym t t' _ Hinner.
      apply (forEachO_covers fdIncl
               (fun (source : string) (s : Closure) => In source (fst s))) in Hinner;
        try assumption.
      * intros source u u' HQ Hle. apply Hle. exact HQ.
      * intros source [fd v] u' _ Hcall.
        pose proof (Hrecur _ _ _ _ Hcall) as Hi. split.
        -- intros y Hy. apply Hi. apply JSFacts.in_add. now left.
        -- apply Hi. apply JSFacts.in_add. now right.
Qed.

Lemma expanded_mono (fd fd' : JS.StrSet) (d : FileName) :
  incl fd fd' -> expanded g fd d -> expanded g fd' d.
Proof. unfold expanded. intros Hi He. eauto 10. Qed.

Lemma findAllFinalDependencies_closed (fuel : nat) :
  forall filePath finalDeps visited finalDeps' visited',
  findAllFinalDependencies fuel g filePath (finalDeps, visited)
  = Some (finalDeps', visited') ->
  incl finalDeps finalDeps' /\
  incl visited visited' /\
  In filePath visited' /\
  (forall x, In x finalDeps' -> In x finalDeps \/ In x visited') /\
  (forall d, In d visited' -> In d visited \/ expanded g finalDeps' d).
Proof.
  induction fuel as [| fuel IH];
    intros filePath finalDeps visited finalDeps' visited' H; [discriminate |].
  simpl in H. destruct (JS.has visited filePath) eqn:Hv.
  { injection H as <- <-. repeat split; auto using incl_refl.
    now apply JSFacts.has_true. }
  destruct (JS.get g filePath) as [info |] eqn:Hg.
  2: { injection H as <- <-. repeat split; auto using incl_refl.
       - apply JSFacts.add_incl.
       - apply JSFacts.in_add. now right.
       - intros d Hd. apply JSFacts.in_add in Hd. destruct Hd as [Hd | ->]; [auto |].
         right. unfold expanded. intros. congruence. }
  set (v1 := JS.add visited filePath) in *.
  set (I := fun c : Closure =>
              incl finalDeps (fst c) /\ incl v1 (snd c) /\
              (forall x, In x (fst c) -> In x finalDeps \/ In x (snd c)) /\
              (forall d, In d (snd c) -> In d v1 \/ expanded g (fst c) d)).
  assert (Hstep : forall importPath symbols sym source fd v c',
             In (importPath, symbols) (import info) -> In sym symbols ->
             In source (traceSymbolSource g importPath sym []) ->
             I (fd, v) ->
             findAllFinalDependencies fuel g source (JS.add fd source, v)
             = Some c' -> I c').
  { intros importPath symbols sym source fd v [fd2 v2] _ _ _ (I1 & I2 & I3 & I4) Hrec.
    destruct (IH _ _ _ _ _ Hrec) as (J1 & J2 & J3 & J4 & J5).
    unfold I. simpl in *. repeat split.
    - intros y Hy. apply J1, JSFacts.in_add. left. now apply I1.
    - eapply incl_tran; eassumption.
    - intros y Hy. destruct (J4 y Hy) as [Hy' | Hy']; [| auto].
      apply JSFacts.in_add in Hy'. destruct Hy' as [Hy' | ->]; [| auto].
      destruct (I3 y Hy'); auto.
    - intros d Hd. destruct (J5 d Hd) as [Hd' | Hd']; [| auto].
      destruct (I4 d Hd') as [Hd2 | Hd2]; [auto |].
      right. eapply expanded_mono; [| exact Hd2].
      intros y Hy. apply J1, JSFacts.in_add. now left. }
  assert (Hinit : I (finalDeps, v1)).
  { unfold I. simpl. repeat split; auto using incl_refl. }
  pose proof (expandEdges_invariant g I _ _ Hstep _ _ Hinit H) as (I1 & I2 & I3 & I4).
  simpl in I1, I2, I3, I4.
  assert (Hcov := expandEdges_covers (findAllFinalDependencies fuel g) (import info)).
  destruct (Hcov ltac:(intros source fd v [fd2 v2] Hrec;
                       destruct (IH _ _ _ _ _ Hrec) as (J1 & _); exact J1)
                 _ _ H) as [_ Hsources].
  simpl in Hsources.
  repeat split; auto.
  - eapply incl_tran; [apply JSFacts.add_incl | exact I2].
  - apply I2. apply JSFacts.in_add. now right.
  - intros d Hd. destruct (I4 d Hd) as [Hd' | Hd']; [| auto].
    apply JSFacts.in_add in Hd'. destruct Hd' as [Hd' | ->]; [auto |].
    right. unfold expanded. intros info' importPath symbols sym source Hg' Hedge Hs Hsrc.
    rewrite Hg in Hg'. injection Hg' as <-. eauto.
Qed.

(** The set of final dependencies is closed under tracing: every traced
    source of every symbol that the queried file binds is a final
    dependency, and so is every traced source of every symbol that a final
    dependency binds. *)
Theorem final_dependencies_are_closed (fuel : nat) (filePath : string)
    (finalDeps visited : JS.StrSet) :
  findAllFinalDependencies fuel g filePath ([], []) = Some (finalDeps, visited) ->
  expanded g finalDeps filePath /\
  forall d, In d finalDeps -> expanded g finalDeps d.
Proof.
  intros H.
  destruct (findAllFinalDependencies_closed _ _ _ _ _ _ H)
    as (_ & _ & Hin & Hvis & Hexp).
  assert (Hall : forall d, In d visited -> expanded g finalDeps d).
  { intros d Hd. destruct (Hexp d Hd) as [[] | He]. exact He. }
  split; [now apply Hall |].
  intros d Hd. apply Hall. destruct (Hvis d Hd) as [[] | Hv]. exact Hv.
Qed.

Lemma NoDup_add (s : JS.StrSet) (x : string) : NoDup s -> NoDup (JS.add s x).
Proof.
  intros Hs. unfold JS.add. destruct (JS.has s x) eqn:E; [exact Hs |].
  apply JSFacts.has_false in E.
  apply NoDup_app; [exact Hs | repeat constructor; intros [] |].
  intros y Hy [<- | []]. now apply E.
Qed.

Lemma NoDup_addAll (src dst : JS.StrSet) : NoDup dst -> NoDup (JS.addAll dst src).
Proof.
  unfold JS.addAll. revert dst. induction src as [| x src IH]; intros dst Hd; simpl.
  - exact Hd.
  - apply IH. now apply NoDup_add.
Qed.

Lemma findAllFinalDependencies_NoDup (fuel : nat) :
  forall filePath finalDeps visited finalDeps' visited',
  findAllFinalDependencies fuel g filePath (finalDeps, visited)
  = Some (finalDeps', visited') ->
  NoDup finalDeps -> NoDup finalDeps'.
Proof.
  induction fuel as [| fuel IH];
    intros filePath finalDeps visited finalDeps' visited' H Hnd; [discriminate |].
  simpl in H. destruct (JS.has visited filePath).
  { now injection H as <- <-. }
  destruct (JS.get g filePath) as [info |].
  2: { now injection H as <- <-. }
  apply (expandEdges_invariant g (fun c => NoDup (fst c))
           (findAllFinalDependencies fuel g) (import info)) in H; [exact H | | exact Hnd].
  intros importPath symbols sym source fd v [fd' v'] _ _ _ Hc Hrec. simpl in *.
  eapply IH; [exact Hrec |]. now apply NoDup_add.
Qed.

End ClosureMore.

(** The list that [query] returns has no duplicates. *)
Theorem query_has_no_duplicates {host : Host} (config : Config) (fuel : nat)
    (absFilePath : string) (st st' : Service) (res : list string) :
  query config fuel absFilePath st = Some (res, st') -> NoDup res.
Proof.
  intros H.
  destruct (whenTruthy (resolveFilePath absFilePath)) as [actualPath |] eqn:Hact.
  - destruct (query_result config _ _ _ _ _ _ H Hact)
      as (finalDeps & visited & Hfind & ->).
    apply NoDup_addAll.
    eapply findAllFinalDependencies_NoDup; [exact Hfind | constructor].
  - unfold query in H. rewrite Hact in H. injection H as <- <-. constructor.
Qed.

(* ================================================================== *)
(** * The further theorems at work on the scenarios *)

Lemma visitNode_grows_witness :
  grows (mkResult [("/p/index.ts", ["k"])] (Some "Old") ["a"] ["/p/s.css"])
        (mkResult [("/p/index.ts", ["k"; "m"])] (Some "default") ["a"; "Foo"]
                  ["/p/s.css"; "/p/foo.css"]).
Proof.
  apply (@visitNode_grows Demo.barrel Demo.noAliases
           (@getFileExports Demo.barrel Demo.noAliases 1) "/p/Foo.tsx"
           (Tree.sourceFile [Tree.importSideEffect "./foo.css";
                             Tree.importNamed ["m"] "./index";
                             Tree.exportFunction "Foo";
                             Tree.stmt (ExportAssignment false OtherExpression)])
           (mkResult [("/p/index.ts", ["k"])] (Some "Old") ["a"] ["/p/s.css"])
           (mkResult [("/p/index.ts", ["k"; "m"])] (Some "default") ["a"; "Foo"]
                     ["/p/s.css"; "/p/foo.css"])
           newService newService).
  vm_compute. reflexivity.
Defined.

Lemma emptyDisk_lookups_return :
  forall p st, exists o st',
    @getFileExports Cases.emptyDisk Demo.noAliases 1 p st = Some (o, st').
Proof.
  intros p st. unfold getFileExports, getFileExportsWith, bind, getState, ret.
  destruct (JS.get (exportCache st) p); [eauto |].
  destruct (JS.get (depsGraph st) p); [eauto |].
  change (whenTruthy (@resolveFilePath Cases.emptyDisk p)) with (@None string).
  eauto.
Qed.


Lemma extraction_keeps_graph_witness :
  depsGraph (mkService [] ["/p/X.ts"; "/p/A.ts"]
               [("/p/X.ts", mkResult [] None ["foo"] []);
                ("/p/A.ts", mkResult [("/p/X.ts", ["foo"])] None [] [])]
               ["/p/A.ts"; "/p/X.ts"])
  = depsGraph newService.
Proof.
  apply (@extraction_keeps_graph Demo.namespaceImport Demo.noAliases 2 "/p/A.ts"
           newService _ (Some (mkResult [("/p/X.ts", ["foo"])] None [] []))).
  left. vm_compute. reflexivity.
Defined.

Lemma analyzeFile_caches_witness :
  @analyzeFile Demo.namespaceImport Demo.noAliases 1 "/p/gone.ts" newService
  = Some (None, newService) /\
  (@readSourceFile Demo.namespaceImport "/p/X.ts" <> None /\
   JS.get (exportCache (mkService [] ["/p/X.ts"]
                          [("/p/X.ts", mkResult [] None ["foo"] [])] ["/p/X.ts"]))
          "/p/X.ts" = Some (mkResult [] None ["foo"] []) /\
   In "/p/X.ts" (analyzedFiles (mkService [] ["/p/X.ts"]
                                  [("/p/X.ts", mkResult [] None ["foo"] [])]
                                  ["/p/X.ts"])) /\
   forall fuel',
     @getFileExports Demo.namespaceImport Demo.noAliases fuel' "/p/X.ts"
        (mkService [] ["/p/X.ts"] [("/p/X.ts", mkResult [] None ["foo"] [])]
                   ["/p/X.ts"])
     = Some (Some (mkResult [] None ["foo"] []),
             mkService [] ["/p/X.ts"] [("/p/X.ts", mkResult [] None ["foo"] [])]
                       ["/p/X.ts"])).
Proof.
  split.
  - apply (proj1 (@analyzeFile_caches Demo.namespaceImport Demo.noAliases 0
                    "/p/gone.ts" newService)).
    vm_compute. reflexivity.
  - apply (proj2 (@analyzeFile_caches Demo.namespaceImport Demo.noAliases 0
                    "/p/X.ts" newService)
                 1 (Some (mkResult [] None ["foo"] []))).
    vm_compute. reflexivity.
Defined.

Lemma style_imports_are_style_specifiers_witness :
  exists spec, @isStyleFile Demo.barrel spec = true /\
               @resolveStylePath Demo.barrel Demo.noAliases "/p/Foo.tsx" spec
               = Some "/p/foo.css".
Proof.
  apply (@style_imports_are_style_specifiers Demo.barrel Demo.noAliases 1
           "/p/Foo.tsx" newService
           (mkService [] ["/p/Foo.tsx"]
              [("/p/Foo.tsx", mkResult [] None ["Foo"] ["/p/foo.css"])]
              ["/p/Foo.tsx"])
           (mkResult [] None ["Foo"] ["/p/foo.css"])).
  - vm_compute. reflexivity.
  - simpl. now left.
Defined.

Lemma graph_is_append_only_witness :
  JS.get (depsGraph Demo.cycleQueried) "/p/B.ts"
  = Some (mkResult [("/p/f.ts", ["S"])] None ["T"] []).
Proof.
  apply (@graph_is_append_only Demo.cycle Demo.noAliases 3
           Demo.cycleQueried Demo.cycleQueried).
  - left. exists "/p/f.ts", ["/p/B.ts"; "/p/f.ts"]. vm_compute. reflexivity.
  - vm_compute. reflexivity.
Defined.

Lemma analyzeFileRecursive_records_or_skips_witness :
  @analyzeFileRecursive Demo.cycle Demo.noAliases 1 "/p/nothing" [] newService
  = Some (JS.add [] "/p/nothing", newService) /\
  (exists st2,
      @analyzeFileRecursive Demo.namespaceImport Demo.noAliases 2 "/p/X.ts" []
         newService = Some (JS.add [] "/p/X.ts", st2) /\
      JS.get (depsGraph st2) "/p/X.ts" = Some (mkResult [] None ["foo"] [])) /\
  (incl [] ["/p/f.ts"; "/p/B.ts"] /\
   In "/p/f.ts" ["/p/f.ts"; "/p/B.ts"] /\
   JS.mhas (depsGraph Demo.cycleQueried) "/p/f.ts" = true).
Proof.
  split; [| split].
  - apply (proj1 (proj2 (@analyzeFileRecursive_records_or_skips Demo.cycle
                           Demo.noAliases 0 "/p/nothing" [] newService))).
    + reflexivity.
    + vm_compute. reflexivity.
  - apply (proj1 (proj2 (proj2 (proj2
             (@analyzeFileRecursive_records_or_skips Demo.namespaceImport
                Demo.noAliases 0 "/p/X.ts" [] newService))))
             "/p/X.ts" (mkResult [] None ["foo"] [])
             (mkService [] ["/p/X.ts"]
                        [("/p/X.ts", mkResult [] None ["foo"] [])] ["/p/X.ts"])).
    + reflexivity.
    + vm_compute. reflexivity.
    + reflexivity.
    + vm_compute. reflexivity.
    + intros k [].
  - apply (proj2 (proj2 (proj2 (proj2
             (@analyzeFileRecursive_records_or_skips Demo.cycle
                Demo.noAliases 0 "/p/f.ts" [] newService))))
             3 ["/p/f.ts"; "/p/B.ts"] Demo.cycleQueried "/p/f.ts").
    + vm_compute. reflexivity.
    + reflexivity.
    + vm_compute. reflexivity.
    + vm_compute. discriminate.
Defined.

Lemma query_of_missing_file_witness :
  @query Demo.missingTarget Demo.noAliases 0 "/p/nothing" newService
  = Some ([], newService).
Proof.
  apply (@query_of_missing_file Demo.missingTarget Demo.noAliases 0 "/p/nothing"
           newService).
  - vm_compute. reflexivity.
  - intros q Hq. simpl in Hq.
    repeat (destruct Hq as [<- | Hq]; [vm_compute; reflexivity |]).
    destruct Hq.
Defined.

Lemma query_is_idempotent_witness :
  @query Demo.cycle Demo.noAliases 3 "/p/f.ts" Demo.cycleQueried
  = Some (["/p/B.ts"; "/p/f.ts"], Demo.cycleQueried).
Proof.
  apply (@query_is_idempotent Demo.cycle Demo.noAliases 3 "/p/f.ts" "/p/f.ts"
           newService).
  - vm_compute. reflexivity.
  - vm_compute. reflexivity.
  - vm_compute. reflexivity.
Defined.

Lemma traceSymbolSource_any_fuel_witness :
  traceSymbolSourceFuel 7 Cases.barrelGraph "/p/index.ts" "Foo" []
  = Some (traceSymbolSource Cases.barrelGraph "/p/index.ts" "Foo" []).
Proof.
  apply (traceSymbolSource_any_fuel Cases.barrelGraph "Foo" 7 "/p/index.ts" []).
  simpl. lia.
Defined.

Lemma traced_origin_declares_witness :
  ("/p/Foo.tsx" = "/p/index.ts" \/ In "/p/Foo.tsx" (importKeys Cases.barrelGraph)) /\
  declares Cases.barrelGraph "Foo" "/p/Foo.tsx".
Proof.
  apply (traced_origin_declares Cases.barrelGraph "Foo" "/p/index.ts" []).
  vm_compute. now left.
Defined.

Lemma reexport_traces_to_declaring_file_witness :
  (forall x, In x (traceSymbolSource Cases.barrelGraph "/p/index.ts" "Foo" []) <->
             x = "/p/Foo.tsx") /\
  traceSymbolSource Cases.barrelGraph "/p/Foo.tsx" "Foo" [] = ["/p/Foo.tsx"].
Proof.
  apply (reexport_traces_to_declaring_file Cases.barrelGraph "Foo"
           "/p/index.ts" "/p/Foo.tsx"
           (mkResult [("/p/Foo.tsx", ["Foo"])] None ["Foo"] [])
           (mkResult [] None ["Foo"] ["/p/foo.css"])).
  - discriminate.
  - reflexivity.
  - reflexivity.
  - reflexivity.
  - reflexivity.
  - reflexivity.
  - intros edge [<- | []] _. reflexivity.
  - reflexivity.
Defined.

Lemma self_import_traces_nothing_witness :
  traceSymbolSource Cases.selfImportGraph "/p/f.ts" "S" [] = [].
Proof.
  apply (self_import_traces_nothing Cases.selfImportGraph "S" "/p/f.ts"
           (mkResult [("/p/f.ts", ["S"])] None ["S"] [])).
  - reflexivity.
  - reflexivity.
  - reflexivity.
  - intros edge [<- | []] _. reflexivity.
Defined.

Lemma final_dependencies_are_closed_witness :
  expanded Cases.barrelGraph ["/p/Foo.tsx"] "/p/index.ts" /\
  forall d, In d ["/p/Foo.tsx"] -> expanded Cases.barrelGraph ["/p/Foo.tsx"] d.
Proof.
  apply (final_dependencies_are_closed Cases.barrelGraph 3 "/p/index.ts"
           ["/p/Foo.tsx"] ["/p/index.ts"; "/p/Foo.tsx"]).
  vm_compute. reflexivity.
Defined.

Lemma query_has_no_duplicates_witness : NoDup ["/p/B.ts"; "/p/f.ts"].
Proof.
  apply (@query_has_no_duplicates Demo.cycle Demo.noAliases 3 "/p/f.ts"
           newService Demo.cycleQueried).
  vm_compute. reflexivity.
Defined.
